(** * araa-gps: the experiment-orchestration logic of the notebooks

    The notebooks [assessment.ipynb] (kernel assessment, followed in the
    same source file by the quasar time-delay notebook) and
    [transit.ipynb] are straight-line drivers around tinygp, NumPyro,
    jaxopt and JAX.  This development embeds the driver logic: the
    train/held-out mask, the quasar [build_gp] with its [argsort], the
    [Multiband] kernel wrapper, the grid search that initialises the lag,
    the NumPyro models, and the notebook cells as transformers of the
    global name space.

    Conventions.  JAX floating-point arrays are modelled by lists of
    rationals [Q] (no NaN, no rounding); the transit model, which needs
    [exp], [log] and [sqrt], is stated over the reals [R].  Functions of
    the external libraries are section variables: every theorem holds for
    all of their possible behaviours. *)

From Stdlib Require Import ZArith QArith List Permutation Sorted Lia.
From Stdlib Require Import Reals Psatz.
From stdpp Require Import gmap strings list.

Local Open Scope nat_scope.

(** ** JAX array primitives used by the notebooks *)

Module Jnp.

(** [x < y] on array entries. *)
Definition Qltb (x y : Q) : bool :=
  match (x ?= y)%Q with Lt => true | _ => false end.

Lemma Qltb_lt x y : Qltb x y = true <-> (x < y)%Q.
Proof.
  unfold Qltb. rewrite Qlt_alt. destruct (x ?= y)%Q; split; congruence.
Qed.

Lemma Qltb_ge x y : Qltb x y = false <-> (y <= x)%Q.
Proof.
  pose proof (Qltb_lt x y) as Hlt. pose proof (Qnot_lt_le x y) as Hle.
  pose proof (Qle_not_lt y x) as Hnl.
  destruct (Qltb x y); split; intros H; try discriminate; try reflexivity.
  - exfalso. apply (Hnl H). apply Hlt. reflexivity.
  - apply Hle. intros Hxy. apply Hlt in Hxy. discriminate.
Qed.

(** Python's normalisation of a slice bound against a length [n]:
    a negative bound counts from the end, and both are clipped to
    [0..n]. *)
Definition slice_bound (n : nat) (i : Z) : nat :=
  if (i <? 0)%Z then Z.to_nat (Z.max 0 (Z.of_nat n + i))
  else Z.to_nat (Z.min i (Z.of_nat n)).

Definition slice_start (n : nat) (s : option Z) : nat :=
  match s with None => 0 | Some i => slice_bound n i end.

Definition slice_stop (n : nat) (s : option Z) : nat :=
  match s with None => n | Some i => slice_bound n i end.

(** [a.at[start:stop].set(v)]: a new array, equal to [a] outside the
    slice and to the scalar [v] inside it. *)
Definition at_slice_set {A} (start stop : option Z) (v : A) (a : list A) : list A :=
  let lo := slice_start (length a) start in
  let hi := slice_stop (length a) stop in
  imap (fun i x => if (lo <=? i) && (i <? hi) then v else x) a.

(** [a[mask]] for a boolean mask of the same shape. *)
Fixpoint bool_index {A} (a : list A) (mask : list bool) : list A :=
  match a, mask with
  | x :: a', b :: mask' =>
      if b then x :: bool_index a' mask' else bool_index a' mask'
  | _, _ => []
  end.

(** [~mask]. *)
Definition invert (mask : list bool) : list bool := map negb mask.

(** [mask.sum()]: the number of [True] entries. *)
Definition count_true (mask : list bool) : nat :=
  length (List.filter (fun b : bool => b) mask).

(** [jnp.arange(n)]. *)
Definition arange (n : nat) : list nat := seq 0 n.

(** [a[inds]] for an integer index array: JAX clamps an index past the
    end to the last entry ([d] only shows for an empty [a]). *)
Definition gather {A} (d : A) (a : list A) (inds : list nat) : list A :=
  map (fun i => nth (Nat.min i (length a - 1)) a d) inds.

(** [a.at[inds].set(vals)]: a new array; updates past the end are
    dropped. *)
Definition scatter {A} (a : list A) (inds : list nat) (vals : list A) : list A :=
  fold_left (fun acc iv => <[fst iv := snd iv]> acc) (zip inds vals) a.

(** [a[i]] for a scalar integer index: a negative index counts from the
    end, and the index is clamped into the array. *)
Definition index (d : Q) (a : list Q) (i : Z) : Q :=
  let n := Z.of_nat (length a) in
  let i := if (i <? 0)%Z then (i + n)%Z else i in
  nth (Z.to_nat (Z.max 0 (Z.min i (n - 1)))) a d.

(** [jnp.argsort(a)]: the stable permutation that sorts [a] in
    non-decreasing order, as an insertion sort on (value, position). *)
Fixpoint insert_key (x : Q * nat) (l : list (Q * nat)) : list (Q * nat) :=
  match l with
  | [] => [x]
  | y :: l' =>
      if Qle_bool (fst x) (fst y) then x :: y :: l' else y :: insert_key x l'
  end.

Definition sort_keys (l : list (Q * nat)) : list (Q * nat) :=
  foldr insert_key [] l.

Definition argsort (a : list Q) : list nat :=
  map snd (sort_keys (zip a (seq 0 (length a)))).

Lemma length_at_slice_set {A} s e (v : A) a :
  length (at_slice_set s e v a) = length a.
Proof. unfold at_slice_set. apply length_imap. Qed.

Lemma lookup_at_slice_set {A} s e (v : A) a i x :
  a !! i = Some x ->
  at_slice_set s e v a !! i =
    Some (if (slice_start (length a) s <=? i) && (i <? slice_stop (length a) e)
          then v else x).
Proof.
  intros Hi. unfold at_slice_set. rewrite list_lookup_imap, Hi. reflexivity.
Qed.

Lemma length_bool_index {A} (a : list A) mask :
  length a = length mask -> length (bool_index a mask) = count_true mask.
Proof.
  unfold count_true. revert mask.
  induction a as [|x a IH]; intros [|b mask] Hl; simpl in *; try lia.
  destruct b; simpl; [f_equal|]; apply IH; lia.
Qed.

Lemma count_true_invert mask :
  count_true (invert mask) = length mask - count_true mask.
Proof.
  unfold count_true, invert.
  induction mask as [|b mask IH]; simpl; [reflexivity|].
  assert (Hle : length (List.filter (fun b : bool => b) mask) <= length mask)
    by apply List.filter_length_le.
  destruct b; simpl; [exact IH | rewrite IH; lia].
Qed.

Lemma count_true_le mask : count_true mask <= length mask.
Proof. apply List.filter_length_le. Qed.

(** Selecting with a mask and with its complement splits the array. *)
Lemma bool_index_partition {A} (a : list A) mask :
  length a = length mask ->
  Permutation (bool_index a mask ++ bool_index a (invert mask)) a.
Proof.
  revert mask.
  induction a as [|x a IH]; intros [|b mask] Hl; simpl in *; try lia.
  - constructor.
  - destruct b; simpl.
    + constructor. apply IH. lia.
    + rewrite <- Permutation_middle. constructor. apply IH. lia.
Qed.

Lemma elem_of_bool_index_arange mask i k :
  i ∈ bool_index (seq k (length mask)) mask <->
  k <= i /\ mask !! (i - k) = Some true.
Proof.
  revert k. induction mask as [|b mask IH]; intros k; simpl.
  - rewrite elem_of_nil. rewrite lookup_nil. split; [tauto | intros [_ ?]; discriminate].
  - destruct b.
    + rewrite elem_of_cons, IH. split.
      * intros [-> | [Hk Hm]].
        -- split; [lia|]. replace (k - k) with 0 by lia. reflexivity.
        -- split; [lia|]. replace (i - k) with (S (i - S k)) by lia. exact Hm.
      * intros [Hk Hm]. destruct (decide (i = k)) as [->|Hne]; [left; reflexivity|].
        right. split; [lia|].
        replace (i - k) with (S (i - S k)) in Hm by lia. exact Hm.
    + rewrite IH. split.
      * intros [Hk Hm]. split; [lia|].
        replace (i - k) with (S (i - S k)) by lia. exact Hm.
      * intros [Hk Hm]. destruct (decide (i = k)) as [->|Hne].
        -- replace (k - k) with 0 in Hm by lia. discriminate.
        -- split; [lia|]. replace (i - k) with (S (i - S k)) in Hm by lia. exact Hm.
Qed.

(** *** [argsort] sorts and is a permutation *)

Definition key_le (x y : Q * nat) : Prop := (fst x <= fst y)%Q.

Lemma insert_key_perm x l : Permutation (insert_key x l) (x :: l).
Proof.
  induction l as [|y l IH]; simpl; [reflexivity|].
  destruct (Qle_bool (fst x) (fst y)); [reflexivity|].
  rewrite IH. apply perm_swap.
Qed.

Lemma sort_keys_perm l : Permutation (sort_keys l) l.
Proof.
  induction l as [|x l IH]; simpl; [reflexivity|].
  rewrite insert_key_perm. constructor. exact IH.
Qed.

Lemma insert_key_hd x y l :
  key_le y x -> HdRel key_le y l -> HdRel key_le y (insert_key x l).
Proof.
  intros Hyx Hy. destruct l as [|z l]; simpl; [constructor; exact Hyx|].
  destruct (Qle_bool (fst x) (fst z)); constructor;
    [exact Hyx | inversion Hy; assumption].
Qed.

Lemma insert_key_sorted x l :
  Sorted key_le l -> Sorted key_le (insert_key x l).
Proof.
  induction 1 as [|y l Hs IH Hhd]; simpl; [repeat constructor|].
  destruct (Qle_bool (fst x) (fst y)) eqn:Hc.
  - constructor; [constructor; assumption|].
    constructor. apply Qle_bool_iff. exact Hc.
  - constructor; [exact IH|]. apply insert_key_hd; [|exact Hhd].
    unfold key_le. apply Qlt_le_weak, Qnot_le_lt. intros Hle.
    apply Qle_bool_iff in Hle. congruence.
Qed.

Lemma sort_keys_sorted l : Sorted key_le (sort_keys l).
Proof.
  induction l as [|x l IH]; simpl; [constructor|].
  apply insert_key_sorted, IH.
Qed.

Lemma sorted_map_fst l : Sorted key_le l -> Sorted Qle (map fst l).
Proof.
  induction 1 as [|x l Hs IH Hhd]; simpl; constructor; [exact IH|].
  destruct Hhd; simpl; constructor; assumption.
Qed.

Lemma snd_zip_seq {A} (a : list A) k : map snd (zip a (seq k (length a))) = seq k (length a).
Proof.
  revert k. induction a as [|x a IH]; intros k; simpl; [reflexivity|].
  f_equal. apply IH.
Qed.

Lemma zip_seq_lookup {A} (a : list A) k :
  Forall (fun vi : A * nat => k <= snd vi /\ a !! (snd vi - k) = Some (fst vi))
         (zip a (seq k (length a))).
Proof.
  revert k. induction a as [|x a IH]; intros k; simpl; constructor.
  - simpl. split; [lia|]. replace (k - k) with 0 by lia. reflexivity.
  - eapply Forall_impl; [apply (IH (S k))|].
    intros [v i] [Hle Hl]; simpl in *. split; [lia|].
    replace (i - k) with (S (i - S k)) by lia. exact Hl.
Qed.

Lemma argsort_perm a : Permutation (argsort a) (seq 0 (length a)).
Proof.
  unfold argsort. rewrite sort_keys_perm. rewrite snd_zip_seq. reflexivity.
Qed.

Lemma length_argsort a : length (argsort a) = length a.
Proof. rewrite (Permutation_length (argsort_perm a)). apply length_seq. Qed.

Lemma nth_clamp_lookup {A} (d : A) a i x :
  a !! i = Some x -> nth (Nat.min i (length a - 1)) a d = x.
Proof.
  intros Hi. pose proof (lookup_lt_Some _ _ _ Hi) as Hlt.
  replace (Nat.min i (length a - 1)) with i by lia.
  apply nth_lookup_Some with (d := d) in Hi. exact Hi.
Qed.

Lemma gather_argsort a :
  gather 0%Q a (argsort a) = map fst (sort_keys (zip a (seq 0 (length a)))).
Proof.
  unfold gather, argsort. rewrite map_map.
  apply map_ext_Forall.
  eapply Permutation_Forall; [symmetry; apply sort_keys_perm|].
  eapply Forall_impl; [apply (zip_seq_lookup a 0)|].
  intros [v i] [_ Hl]; simpl in *. rewrite Nat.sub_0_r in Hl.
  apply nth_clamp_lookup. exact Hl.
Qed.

(** The array handed on after [inds = argsort(a)]; [a[inds]] is sorted. *)
Lemma gather_argsort_sorted a : Sorted Qle (gather 0%Q a (argsort a)).
Proof. rewrite gather_argsort. apply sorted_map_fst, sort_keys_sorted. Qed.

(** Indexing with in-range indices reads the entries at these indices. *)
Lemma gather_lookup {A} (d : A) a inds j i x :
  inds !! j = Some i -> a !! i = Some x -> gather d a inds !! j = Some x.
Proof.
  intros Hj Hi. unfold gather. rewrite list_lookup_fmap, Hj. simpl.
  f_equal. apply nth_clamp_lookup. exact Hi.
Qed.

Lemma length_gather {A} (d : A) a inds : length (gather d a inds) = length inds.
Proof. unfold gather. apply length_map. Qed.

(** Reading a permutation of all indices gives a permutation of the
    array. *)
Lemma gather_perm {A} (d : A) a inds :
  Permutation inds (seq 0 (length a)) -> Permutation (gather d a inds) a.
Proof.
  intros Hp. unfold gather. rewrite Hp.
  replace (map _ (seq 0 (length a))) with a; [reflexivity|].
  apply list_eq. intros i. rewrite list_lookup_fmap.
  destruct (a !! i) as [x|] eqn:Hi.
  - pose proof (lookup_lt_Some _ _ _ Hi) as Hlt.
    rewrite lookup_seq_lt by exact Hlt. simpl. f_equal. symmetry.
    apply nth_clamp_lookup. exact Hi.
  - apply lookup_ge_None in Hi. rewrite lookup_seq_ge by exact Hi. reflexivity.
Qed.

(** *** [at[inds].set] against [a[inds]] *)

Lemma length_scatter {A} (a : list A) inds vals :
  length (scatter a inds vals) = length a.
Proof.
  unfold scatter. revert a vals.
  induction inds as [|i inds IH]; intros a [|v vals]; simpl; try reflexivity.
  rewrite IH. apply length_insert.
Qed.

Lemma scatter_lookup_notin {A} (a : list A) inds vals i :
  i ∉ inds -> scatter a inds vals !! i = a !! i.
Proof.
  unfold scatter. revert a vals.
  induction inds as [|i0 inds IH]; intros a [|v vals] Hn; simpl; try reflexivity.
  apply not_elem_of_cons in Hn as [Hne Hn].
  rewrite IH by exact Hn. apply list_lookup_insert_ne. congruence.
Qed.

Lemma scatter_lookup {A} (a : list A) inds vals j i v :
  NoDup inds -> inds !! j = Some i -> vals !! j = Some v -> i < length a ->
  scatter a inds vals !! i = Some v.
Proof.
  revert a vals j.
  induction inds as [|i0 inds IH]; intros a vals j Hnd Hj Hv Hlt;
    [rewrite lookup_nil in Hj; discriminate|].
  destruct vals as [|v0 vals]; [rewrite lookup_nil in Hv; discriminate|].
  apply NoDup_cons in Hnd as [Hnotin Hnd].
  change (scatter (<[i0:=v0]> a) inds vals !! i = Some v).
  destruct j as [|j]; simpl in Hj, Hv.
  - injection Hj as ->. injection Hv as ->.
    rewrite scatter_lookup_notin by exact Hnotin.
    apply list_lookup_insert_eq. exact Hlt.
  - apply (IH _ _ j); try assumption. rewrite length_insert. exact Hlt.
Qed.

(** Writing [vals] at a permutation [inds] of all positions and reading
    back at [inds] returns [vals]; the array written over is
    irrelevant. *)
Lemma gather_scatter {A} (d : A) (a : list A) inds vals :
  Permutation inds (seq 0 (length a)) -> length vals = length a ->
  gather d (scatter a inds vals) inds = vals.
Proof.
  intros Hp Hl.
  assert (Hnd : NoDup inds) by (rewrite Hp; apply NoDup_seq).
  assert (Hli : length inds = length a)
    by (rewrite (Permutation_length Hp); apply length_seq).
  apply list_eq. intros j.
  destruct (vals !! j) as [v|] eqn:Hv.
  - destruct (lookup_lt_is_Some_2 inds j) as [i Hi].
    { apply lookup_lt_Some in Hv. lia. }
    assert (Hlt : i < length a).
    { assert (Hin : i ∈ seq 0 (length a))
        by (rewrite <- Hp; apply list_elem_of_lookup; eauto).
      apply elem_of_seq in Hin. lia. }
    eapply gather_lookup; [exact Hi|].
    eapply scatter_lookup; eassumption.
  - apply lookup_ge_None in Hv. apply lookup_ge_None.
    rewrite length_gather. lia.
Qed.

Lemma scatter_buffer_irrelevant {A} (a a' : list A) inds vals :
  length a = length a' ->
  Permutation inds (seq 0 (length a)) -> length vals = length a ->
  scatter a inds vals = scatter a' inds vals.
Proof.
  intros Haa Hp Hl.
  assert (Hnd : NoDup inds) by (rewrite Hp; apply NoDup_seq).
  assert (Hli : length inds = length a)
    by (rewrite (Permutation_length Hp); apply length_seq).
  apply list_eq. intros i.
  destruct (decide (i < length a)) as [Hlt|Hge].
  - assert (Hin : i ∈ inds) by (rewrite Hp; apply elem_of_seq; lia).
    apply list_elem_of_lookup in Hin as [j Hj].
    destruct (lookup_lt_is_Some_2 vals j) as [v Hv].
    { apply lookup_lt_Some in Hj. lia. }
    rewrite (scatter_lookup a inds vals j i v) by assumption.
    rewrite (scatter_lookup a' inds vals j i v) by (try assumption; lia).
    reflexivity.
  - rewrite !(proj2 (lookup_ge_None _ _)); [reflexivity| |];
      rewrite length_scatter; lia.
Qed.



Lemma Forall_of_forallb {A} (f : A -> bool) (P : A -> Prop) (l : list A) :
  (forall x, f x = true -> P x) -> forallb f l = true -> Forall P l.
Proof.
  intros HfP. induction l as [|x l IH]; simpl; intros H; constructor.
  - apply HfP. destruct (f x); [reflexivity | discriminate].
  - apply IH. destruct (f x); [exact H | discriminate].
Qed.

End Jnp.

(** ** Notebook cells as programs: state and exceptions

    A cell runs against a store [S].  A statement either returns or
    raises; what a statement did to the store before raising stays
    done, as in Python.  The notebooks contain no [try] statement, and
    the monad has no handler. *)

Module Py.

Inductive outcome (E A : Type) : Type :=
| Returned (a : A)
| Raised (e : E).
Arguments Returned {E A} a.
Arguments Raised {E A} e.

Definition cell (S E A : Type) : Type := S -> outcome E A * S.

Section Cell.
Context {S E : Type}.

Definition ret {A} (a : A) : cell S E A := fun s => (Returned a, s).

Definition bind {A B} (m : cell S E A) (f : A -> cell S E B) : cell S E B :=
  fun s =>
    match m s with
    | (Returned a, s') => f a s'
    | (Raised e, s') => (Raised e, s')
    end.

Definition get : cell S E S := fun s => (Returned s, s).
Definition modify (f : S -> S) : cell S E unit := fun s => (Returned tt, f s).

(** A call into a library: it returns a value or raises. *)
Definition call {A} (r : E + A) : cell S E A :=
  fun s => match r with inl e => (Raised e, s) | inr a => (Returned a, s) end.

(** [for x in xs: body]. *)
Fixpoint for_each {A} (xs : list A) (body : A -> cell S E unit) : cell S E unit :=
  match xs with
  | [] => ret tt
  | x :: xs' => bind (body x) (fun _ => for_each xs' body)
  end.

(** [if c: body]. *)
Definition when (c : bool) (body : cell S E unit) : cell S E unit :=
  if c then body else ret tt.

Lemma for_each_app {A} (xs ys : list A) (body : A -> cell S E unit) s :
  for_each (xs ++ ys) body s =
  match for_each xs body s with
  | (Returned _, s') => for_each ys body s'
  | (Raised e, s') => (Raised e, s')
  end.
Proof.
  revert s. induction xs as [|x xs IH]; intros s; simpl; [reflexivity|].
  unfold bind. destruct (body x s) as [[[]|e] s']; [apply IH | reflexivity].
Qed.

End Cell.

Declare Scope py_scope.
Delimit Scope py_scope with py.
Notation "x <- m ;; k" := (bind m (fun x => k))
  (at level 100, m at next level, right associativity) : py_scope.
Notation "m ;; k" := (bind m (fun _ => k))
  (at level 100, right associativity) : py_scope.

End Py.

(** ** The notebooks' top-level statements over the global name space

    A cell is a sequence of statements run against the interpreter's
    globals, a dictionary from names to objects.  What an expression
    evaluates to is the business of Python and of the libraries: [eval]
    gives, for the source text of an expression and the world it is
    evaluated in, the value returned or the exception raised.  The world
    also keeps the trace of evaluations, so results may depend on what
    ran before.

    Names are bound to values.  A statement that updates an object in
    place (a subscript assignment, [append], [run], a plotting method)
    lists the names through which the object is reachable, and gives
    them new values.  JAX arrays have no in-place update. *)

Module Notebook.
Import Py.
Local Open Scope py_scope.

Section Semantics.

Variables Obj Exn : Type.

Inductive event : Type :=
| Evaluated (src : string)
| Failed (src : string) (e : Exn)
| Traceback (e : Exn).

Record World : Type := {
  globals : gmap string Obj;
  trace : list event
}.

Variable eval : string -> World -> Exn + Obj.
(** Component [i] of a tuple value, the elements of an iterable, and the
    truth value of an object. *)
Variable unpack : nat -> Obj -> Obj.
Variable items : Obj -> list Obj.
Variable truthy : Obj -> bool.
(** What IPython's [%time] does with an exception of the timed
    statement: it is version dependent, see [time_magic]. *)
Variable time_swallows : bool.

Definition stmt : Type := cell World Exn unit.

Definition log (ev : event) (w : World) : World :=
  {| globals := globals w; trace := trace w ++ [ev] |}.

Definition evaluate (src : string) : cell World Exn Obj :=
  fun w =>
    match eval src w with
    | inl e => (Raised e, log (Failed src e) w)
    | inr v => (Returned v, log (Evaluated src) w)
    end.

Definition bind_name (x : string) (v : Obj) : stmt :=
  modify (fun w => {| globals := <[x := v]> (globals w); trace := trace w |}).

(** [x = <src>] *)
Definition assign (x : string) (src : string) : stmt :=
  v <- evaluate src ;; bind_name x v.

Fixpoint bind_names (i : nat) (xs : list string) (v : Obj) : stmt :=
  match xs with
  | [] => ret tt
  | x :: xs' => bind_name x (unpack i v) ;; bind_names (S i) xs' v
  end.

(** [x1, x2, ... = <src>] *)
Definition assign_unpack (xs : list string) (src : string) : stmt :=
  v <- evaluate src ;; bind_names 0 xs v.

(** A statement [<src>] that updates in place the object reachable
    through the names [xs]. *)
Definition in_place (xs : list string) (src : string) : stmt :=
  v <- evaluate src ;; bind_names 0 xs v.

(** An expression statement. *)
Definition expr (src : string) : stmt :=
  _ <- evaluate src ;; ret tt.

(** [def f(...): ...] and [from m import f] bind a name. *)
Definition def_ (f : string) : stmt := assign f "def".
Definition import_ (f : string) : stmt := assign f "import".

(** A sequence of statements. *)
Fixpoint block (b : list stmt) : stmt :=
  match b with
  | [] => ret tt
  | st :: b' => st ;; block b'
  end.

(** [for x in <src>: body] *)
Definition for_ (x : string) (src : string) (body : list stmt) : stmt :=
  it <- evaluate src ;;
  for_each (items it) (fun v => bind_name x v ;; block body).

(** [if <src>: body] *)
Definition if_ (src : string) (body : list stmt) : stmt :=
  c <- evaluate src ;; when (truthy c) (block body).

(** [with <src>: body] for a context manager that lets exceptions
    through ([mpl.rc_context]). *)
Definition with_ (src : string) (body : list stmt) : stmt :=
  _ <- evaluate src ;; block body.

(** IPython's line magic [%time <statement>].  What happens to an
    exception of the statement depends on the IPython that runs the
    notebook, which the repository does not fix.  With [time_swallows]
    the statement runs inside [try: exec(code, glob, local_ns) / except:
    self.shell.showtraceback(); return]
    (IPython/core/magics/execution.py of IPython 8): the exception is
    reported and the cell goes on with its next statement.  Without it
    the magic lets the exception through, as a plain statement does. *)
Definition time_magic (st : stmt) : stmt :=
  fun w =>
    match st w with
    | (Raised e, w') =>
        if time_swallows then (Returned tt, log (Traceback e) w') else (Raised e, w')
    | (Returned _, w') => (Returned tt, w')
    end.

(** Running cells one after the other; a cell that raised leaves its
    effects and later cells may still be run. *)
Definition run_cells (cells : list (list stmt)) (w : World) : World :=
  fold_left (fun w c => snd (block c w)) cells w.

(** *** Frame: the names a statement leaves alone *)

Definition frames {A} (x : string) (c : cell World Exn A) : Prop :=
  forall w, globals (snd (c w)) !! x = globals w !! x.

Lemma frames_ret {A} x (a : A) : frames x (ret a).
Proof. intros w. reflexivity. Qed.

Lemma frames_bind {A B} x (m : cell World Exn A) (f : A -> cell World Exn B) :
  frames x m -> (forall a, frames x (f a)) -> frames x (bind m f).
Proof.
  intros Hm Hf w. unfold bind. specialize (Hm w).
  destruct (m w) as [[a|e] w']; simpl in *; [|exact Hm].
  rewrite Hf. exact Hm.
Qed.

Lemma frames_evaluate x src : frames x (evaluate src).
Proof. intros w. unfold evaluate. destruct (eval src w); reflexivity. Qed.

Lemma frames_bind_name x y v : x <> y -> frames x (bind_name y v).
Proof. intros Hne w. simpl. apply lookup_insert_ne. congruence. Qed.

Lemma frames_bind_names x xs v i :
  x ∉ xs -> frames x (bind_names i xs v).
Proof.
  revert i. induction xs as [|y xs IH]; intros i Hn; simpl; [apply frames_ret|].
  apply not_elem_of_cons in Hn as [Hne Hn].
  apply frames_bind; [apply frames_bind_name; exact Hne | intros _; apply IH, Hn].
Qed.

Lemma frames_assign x y src : x <> y -> frames x (assign y src).
Proof.
  intros Hne. apply frames_bind; [apply frames_evaluate|].
  intros v. apply frames_bind_name, Hne.
Qed.

Lemma frames_assign_unpack x xs src : x ∉ xs -> frames x (assign_unpack xs src).
Proof.
  intros Hn. apply frames_bind; [apply frames_evaluate|].
  intros v. apply frames_bind_names, Hn.
Qed.

Lemma frames_in_place x xs src : x ∉ xs -> frames x (in_place xs src).
Proof. apply frames_assign_unpack. Qed.

Lemma frames_expr x src : frames x (expr src).
Proof. apply frames_bind; [apply frames_evaluate | intros _; apply frames_ret]. Qed.

Lemma frames_def x f : x <> f -> frames x (def_ f).
Proof. apply frames_assign. Qed.

Lemma frames_import x f : x <> f -> frames x (import_ f).
Proof. apply frames_assign. Qed.

Lemma frames_block x b : Forall (frames x) b -> frames x (block b).
Proof.
  induction 1 as [|st b Hst Hb IH]; simpl; [apply frames_ret|].
  apply frames_bind; [exact Hst | intros _; exact IH].
Qed.

Lemma frames_for_each {A} x (xs : list A) (body : A -> stmt) :
  (forall a, frames x (body a)) -> frames x (for_each xs body).
Proof.
  intros Hb. induction xs as [|a xs IH]; simpl; [apply frames_ret|].
  apply frames_bind; [apply Hb | intros _; exact IH].
Qed.

Lemma frames_for x y src body :
  x <> y -> Forall (frames x) body -> frames x (for_ y src body).
Proof.
  intros Hne Hb. apply frames_bind; [apply frames_evaluate|].
  intros it. apply frames_for_each. intros v.
  apply frames_bind; [apply frames_bind_name, Hne | intros _; apply frames_block, Hb].
Qed.

Lemma frames_if x src body : Forall (frames x) body -> frames x (if_ src body).
Proof.
  intros Hb. apply frames_bind; [apply frames_evaluate|].
  intros c. unfold when. destruct (truthy c); [apply frames_block, Hb | apply frames_ret].
Qed.

Lemma frames_with x src body : Forall (frames x) body -> frames x (with_ src body).
Proof.
  intros Hb. apply frames_bind; [apply frames_evaluate|].
  intros _. apply frames_block, Hb.
Qed.

Lemma frames_time_magic x st : frames x st -> frames x (time_magic st).
Proof.
  intros Hst w. unfold time_magic. specialize (Hst w).
  destruct (st w) as [[[]|e] w']; [|destruct time_swallows]; simpl in *; exact Hst.
Qed.

Lemma frames_run_cells x cells w :
  Forall (fun c => Forall (frames x) c) cells ->
  globals (run_cells cells w) !! x = globals w !! x.
Proof.
  unfold run_cells. intros H. revert w.
  induction H as [|c cells Hc _ IH]; intros w; simpl; [reflexivity|].
  rewrite IH. apply (frames_block x c Hc).
Qed.

(** *** Exceptions: a failing evaluation inside a cell *)

Lemma block_app b1 b2 w :
  block (b1 ++ b2) w =
  match block b1 w with
  | (Returned _, w') => block b2 w'
  | (Raised e, w') => (Raised e, w')
  end.
Proof.
  revert w. induction b1 as [|st b1 IH]; intros w; simpl; [reflexivity|].
  unfold bind. destruct (st w) as [[[]|e] w']; [apply IH | reflexivity].
Qed.

Lemma evaluate_raises src w e :
  eval src w = inl e -> evaluate src w = (Raised e, log (Failed src e) w).
Proof. intros H. unfold evaluate. rewrite H. reflexivity. Qed.

Lemma assign_raises x src w e :
  eval src w = inl e -> assign x src w = (Raised e, log (Failed src e) w).
Proof. intros H. unfold assign, bind. rewrite (evaluate_raises _ _ _ H). reflexivity. Qed.

Lemma in_place_raises xs src w e :
  eval src w = inl e -> in_place xs src w = (Raised e, log (Failed src e) w).
Proof. intros H. unfold in_place, bind. rewrite (evaluate_raises _ _ _ H). reflexivity. Qed.

Lemma time_magic_reports xs src w e :
  time_swallows = true ->
  eval src w = inl e ->
  time_magic (in_place xs src) w
  = (Returned tt, log (Traceback e) (log (Failed src e) w)).
Proof.
  intros Hs H. unfold time_magic. rewrite (in_place_raises _ _ _ _ H), Hs. reflexivity.
Qed.

Lemma time_magic_raises xs src w e :
  time_swallows = false ->
  eval src w = inl e ->
  time_magic (in_place xs src) w = (Raised e, log (Failed src e) w).
Proof.
  intros Hs H. unfold time_magic. rewrite (in_place_raises _ _ _ _ H), Hs. reflexivity.
Qed.

(** Statement [i] of the cell [c] evaluates [src]; when that evaluation
    raises after the statements before it returned, the cell ends with
    the exception raised, the globals are those the earlier statements
    left, and the failed evaluation is the last event of the trace. *)
Definition aborts (c : list stmt) (i : nat) (src : string) : Prop :=
  forall w w1 e,
    block (take i c) w = (Returned tt, w1) ->
    eval src w1 = inl e ->
    block c w = (Raised e, log (Failed src e) w1).

(** Statement [i] of the cell [c] evaluates [src] under [%time]; when
    that evaluation raises, the traceback is shown and the cell goes on
    with the statements that follow. *)
Definition reports (c : list stmt) (i : nat) (src : string) : Prop :=
  forall w w1 e,
    block (take i c) w = (Returned tt, w1) ->
    eval src w1 = inl e ->
    block c w = block (drop (S i) c) (log (Traceback e) (log (Failed src e) w1)).

Lemma aborts_intro c i st src :
  c !! i = Some st ->
  (forall w e, eval src w = inl e -> st w = (Raised e, log (Failed src e) w)) ->
  aborts c i src.
Proof.
  intros Hi Hst w w1 e Hpre Hev.
  rewrite <- (take_drop_middle c i st Hi) at 1.
  rewrite block_app, Hpre. simpl. unfold bind. rewrite (Hst _ _ Hev). reflexivity.
Qed.

Lemma reports_intro c i st src :
  c !! i = Some st ->
  (forall w e, eval src w = inl e ->
     st w = (Returned tt, log (Traceback e) (log (Failed src e) w))) ->
  reports c i src.
Proof.
  intros Hi Hst w w1 e Hpre Hev.
  rewrite <- (take_drop_middle c i st Hi) at 1.
  rewrite block_app, Hpre. simpl. unfold bind. rewrite (Hst _ _ Hev). reflexivity.
Qed.

End Semantics.

End Notebook.

(** ** Kernel assessment: simulation and train/held-out split *)

Module Assessment.
Import Jnp.

Section Split.

(** PRNG keys of [jax.random], and [jax.random.uniform(key, (n,))]:
    an array of [n] draws from [0, 1). *)
Variable Key : Type.
Variable random_uniform : Key -> nat -> list Q.
Hypothesis random_uniform_shape :
  forall key n, length (random_uniform key n) = n.

(** The split fraction and the boundary exclusion of the notebook. *)
Definition split_fraction : Q := 7 # 10.
Definition boundary : Z := 10.

(** <<
    mask_train = jax.random.uniform(key_split, (N,)) < 0.7
    mask_train = mask_train.at[:10].set(False)
    mask_train = mask_train.at[-10:].set(False)
    >> *)
Definition mask_train (key_split : Key) (N : nat) : list bool :=
  let mask_train := map (fun u => Qltb u split_fraction) (random_uniform key_split N) in
  let mask_train := at_slice_set None (Some boundary) false mask_train in
  let mask_train := at_slice_set (Some (- boundary)%Z) None false mask_train in
  mask_train.

(** The index sets behind [t[mask_train]] and [t[~mask_train]]. *)
Definition train_indices (key_split : Key) (N : nat) : list nat :=
  bool_index (arange N) (mask_train key_split N).

Definition held_out_indices (key_split : Key) (N : nat) : list nat :=
  bool_index (arange N) (invert (mask_train key_split N)).

Lemma length_mask_train key N : length (mask_train key N) = N.
Proof using random_uniform_shape.
  unfold mask_train. rewrite !length_at_slice_set, length_map.
  apply random_uniform_shape.
Qed.

Lemma mask_train_boundary key N i :
  i < N -> i < 10 \/ N - 10 <= i -> mask_train key N !! i = Some false.
Proof using random_uniform_shape.
  intros Hi Hb. unfold mask_train.
  set (m0 := map _ (random_uniform key N)).
  assert (Hl0 : length m0 = N)
    by (unfold m0; rewrite length_map; apply random_uniform_shape).
  destruct (lookup_lt_is_Some_2 m0 i ltac:(lia)) as [b0 Hb0].
  pose proof (lookup_at_slice_set None (Some boundary) false m0 i b0 Hb0) as H1.
  erewrite lookup_at_slice_set by exact H1.
  rewrite length_at_slice_set, Hl0. f_equal.
  assert (Hs1 : slice_start N None = 0) by reflexivity.
  assert (Hs2 : slice_stop N None = N) by reflexivity.
  assert (He1 : slice_stop N (Some boundary) = Nat.min 10 N)
    by (unfold slice_stop, slice_bound, boundary;
        change (10 <? 0)%Z with false; cbv iota; lia).
  assert (He2 : slice_start N (Some (- boundary)%Z) = N - 10)
    by (unfold slice_start, slice_bound, boundary;
        change (- (10) <? 0)%Z with true; cbv iota; lia).
  rewrite Hs1, Hs2, He1, He2.
  destruct (N - 10 <=? i) eqn:Hlo.
  - rewrite (proj2 (Nat.ltb_lt i N) Hi). reflexivity.
  - apply Nat.leb_gt in Hlo.
    rewrite (proj2 (Nat.ltb_lt i (Nat.min 10 N))) by lia. reflexivity.
Qed.

Lemma elem_of_train_indices key N i :
  i ∈ train_indices key N <-> mask_train key N !! i = Some true.
Proof using random_uniform_shape.
  unfold train_indices, arange.
  rewrite <- (length_mask_train key N) at 1.
  rewrite elem_of_bool_index_arange, Nat.sub_0_r.
  split; [tauto | split; [lia | assumption]].
Qed.

Lemma elem_of_held_out_indices key N i :
  i ∈ held_out_indices key N <-> mask_train key N !! i = Some false.
Proof using random_uniform_shape.
  unfold held_out_indices, arange, invert.
  rewrite <- (length_mask_train key N) at 1.
  rewrite <- (length_map negb (mask_train key N)).
  rewrite elem_of_bool_index_arange, Nat.sub_0_r, list_lookup_fmap.
  destruct (mask_train key N !! i) as [[|]|]; simpl;
    split; try tauto; try (intros [_ ?]; congruence);
    intros ?; try congruence; split; [lia | reflexivity].
Qed.

(** C1.  For every key and observation count [N] the mask has one entry
    per observation; the training and held-out index sets together hold
    every index of [0..N-1] exactly once and each index is in exactly one
    of them; the first 10 and the last 10 mask positions are [False]; the
    training arrays [t[mask_train]], [y[mask_train]] have as many entries
    as the mask has [True] entries and the held-out arrays the
    complement; with [N = 120] the two sizes sum to 120. *)
Theorem mask_train_partition key N (t y : list Q) :
  length t = N -> length y = N ->
  let mask := mask_train key N in
  length mask = N
  /\ Permutation (train_indices key N ++ held_out_indices key N) (arange N)
  /\ (forall i, i < N -> (i ∈ train_indices key N <-> i ∉ held_out_indices key N))
  /\ (forall i, i < N -> i < 10 \/ N - 10 <= i -> mask !! i = Some false)
  /\ length (bool_index t mask) = count_true mask
  /\ length (bool_index y mask) = count_true mask
  /\ length (bool_index t (invert mask)) = N - count_true mask
  /\ length (bool_index y (invert mask)) = N - count_true mask
  /\ (N = 120 ->
      length (bool_index t mask) + length (bool_index t (invert mask)) = 120
      /\ length (bool_index y mask) + length (bool_index y (invert mask)) = 120).
Proof using random_uniform_shape.
  intros Ht Hy mask.
  assert (Hm : length mask = N) by apply length_mask_train.
  assert (Hi : length (invert mask) = N) by (unfold invert; rewrite length_map; exact Hm).
  assert (Hc : count_true mask <= N) by (rewrite <- Hm; apply count_true_le).
  assert (Hti : length (bool_index t (invert mask)) = N - count_true mask)
    by (rewrite length_bool_index, count_true_invert; congruence).
  assert (Hyi : length (bool_index y (invert mask)) = N - count_true mask)
    by (rewrite length_bool_index, count_true_invert; congruence).
  assert (Htm : length (bool_index t mask) = count_true mask)
    by (apply length_bool_index; congruence).
  assert (Hym : length (bool_index y mask) = count_true mask)
    by (apply length_bool_index; congruence).
  repeat split; try assumption.
  - apply bool_index_partition. unfold arange. rewrite length_seq.
    symmetry. exact Hm.
  - rewrite elem_of_train_indices, elem_of_held_out_indices. congruence.
  - rewrite elem_of_train_indices, elem_of_held_out_indices.
    intros Hn. destruct (lookup_lt_is_Some_2 mask i ltac:(lia)) as [[|] Hb];
      unfold mask in *; [exact Hb | contradiction].
  - apply mask_train_boundary; assumption.
  - lia.
  - lia.
Qed.

End Split.

(** A concrete generator and data set, to run the split on. *)
Definition demo_uniform (key n : nat) : list Q :=
  map (fun i => Z.of_nat ((key + 37 * i) mod 100) # 100) (seq 0 n).

Definition demo_t : list Q := map (fun i => inject_Z (Z.of_nat i)) (seq 0 120).
Definition demo_y : list Q := map (fun i => Z.of_nat (i mod 7) # 3) (seq 0 120).

Example demo_mask_head :
  take 14 (mask_train nat demo_uniform 100 120) =
  [false; false; false; false; false; false; false; false; false; false;
   false; true; true; false].
Proof. vm_compute. reflexivity. Qed.

Example demo_mask_tail :
  drop 108 (mask_train nat demo_uniform 100 120) =
  [false; true; false; false; false; false; false; false; false; false;
   false; false].
Proof. vm_compute. reflexivity. Qed.

Lemma mask_train_partition_witness :
  (forall key n, length (demo_uniform key n) = n)
  /\ length demo_t = 120 /\ length demo_y = 120
  /\ Permutation (train_indices nat demo_uniform 100 120
                  ++ held_out_indices nat demo_uniform 100 120) (arange 120)
  /\ length (bool_index demo_y (mask_train nat demo_uniform 100 120))
     + length (bool_index demo_y (invert (mask_train nat demo_uniform 100 120))) = 120.
Proof.
  assert (Hshape : forall key n, length (demo_uniform key n) = n)
    by (intros key n; unfold demo_uniform; rewrite length_map; apply length_seq).
  pose proof (mask_train_partition nat demo_uniform Hshape 100 120 demo_t demo_y
                eq_refl eq_refl) as H.
  cbv zeta in H.
  destruct H as (_ & Hperm & _ & _ & _ & _ & _ & _ & H120).
  destruct (H120 eq_refl) as [_ Hy].
  split; [exact Hshape|]. split; [reflexivity|]. split; [reflexivity|].
  split; [exact Hperm | exact Hy].
Defined.

End Assessment.

(** ** Quasar time delay: kernel, [build_gp], loss and simulation *)

Module Quasar.
Import Jnp.

Local Open Scope Q_scope.

(** The parameter dictionary: the keys "lag", "log_ell", "amps" and
    "means" of [true_params], of the optimizer's solutions and of the
    dictionary built in [model]. *)
Record Params : Type := {
  lag : Q;
  log_ell : Q;
  amps : list Q;
  means : list Q
}.

(** [X = (times, bands)]: a pair of arrays; a single coordinate is a
    pair [(t, band)]. *)
Definition Coords : Type := list Q * list Z.
Definition Coord : Type := Q * Z.

Section Model.

(** tinygp: the wrapped quasiseparable kernel and its interface, the
    matrix products of [Quasisep.evaluate], the log-likelihood and the
    sampler of a [GaussianProcess]; [jnp.exp], [jnp.log]. *)
Variable BaseKernel : Type.
Variable Matrix : Type.
Variable Key : Type.
Variable Matern32 : Q -> BaseKernel.
Variable base_observation_model : BaseKernel -> Q -> list Q.
Variable base_stationary_covariance : BaseKernel -> Matrix.
Variable base_transition : BaseKernel -> Q -> Q -> Matrix.
Variable vecmat : list Q -> Matrix -> list Q.
Variable dot : list Q -> list Q -> Q.
Variable jnp_exp : Q -> Q.
Variable jnp_log : Q -> Q.

(** <<
    class Multiband(kernels.quasisep.Wrapper):
        amplitudes: jnp.ndarray
    >> *)
Record Multiband : Type := {
  amplitudes : list Q;
  kernel : BaseKernel
}.

Definition coord_to_sortable (self : Multiband) (X : Coord) : Q := fst X.

Definition observation_model (self : Multiband) (X : Coord) : list Q :=
  map (Qmult (index 0 (amplitudes self) (snd X)))
      (base_observation_model (kernel self) (fst X)).

(** Inherited from [Wrapper]: the stationary covariance is the wrapped
    kernel's, the transition is the wrapped kernel's between the sortable
    coordinates. *)
Definition stationary_covariance (self : Multiband) : Matrix :=
  base_stationary_covariance (kernel self).

Definition transition (self : Multiband) (X1 X2 : Coord) : Matrix :=
  base_transition (kernel self) (coord_to_sortable self X1) (coord_to_sortable self X2).

(** Inherited from [Quasisep]: the covariance between two coordinates,
    [h2 @ Pinf @ A(X1, X2) @ h1] for [X1] before [X2] and the mirrored
    product otherwise. *)
Definition evaluate (self : Multiband) (X1 X2 : Coord) : Q :=
  let Pinf := stationary_covariance self in
  let h1 := observation_model self X1 in
  let h2 := observation_model self X2 in
  if Qltb (coord_to_sortable self X1) (coord_to_sortable self X2)
  then dot (vecmat (vecmat h2 Pinf) (transition self X1 X2)) h1
  else dot (vecmat (vecmat h1 Pinf) (transition self X2 X1)) h2.

(** <<
    def time_delay_transform(lag, X):
        t, band = X
        return t - lag * band
    >> *)
Definition time_delay_transform (lag : Q) (X : Coords) : list Q :=
  let '(t, band) := X in
  zip_with (fun ti bi => ti - lag * inject_Z bi) t band.

(** <<
    def mean_func(means, X):
        t, band = X
        return means[band]
    >> *)
Definition mean_func (means : list Q) (X : Coord) : Q :=
  let '(t, band) := X in index 0 means band.

(** The arguments of the [GaussianProcess] constructor. *)
Record GaussianProcess : Type := {
  gp_kernel : Multiband;
  gp_X : Coords;
  gp_diag : list Q;
  gp_mean : Coord -> Q
}.

Variable log_probability : GaussianProcess -> list Q -> Q.
Variable gp_sample : GaussianProcess -> Key -> list Q.

(** <<
    def build_gp(params, X, diag):
        band = X[1]
        t = time_delay_transform(params["lag"], X)
        inds = jnp.argsort(t)
        kernel = Multiband(amplitudes=params["amps"],
                           kernel=kernels.quasisep.Matern32(jnp.exp(params["log_ell"])))
        mean = partial(mean_func, params["means"])
        return (GaussianProcess(kernel, (t[inds], band[inds]), diag=diag[inds], mean=mean),
                inds)
    >> *)
Definition build_gp (params : Params) (X : Coords) (diag : list Q)
  : GaussianProcess * list nat :=
  let band := snd X in
  let t := time_delay_transform (lag params) X in
  let inds := argsort t in
  let kernel := {| amplitudes := amps params;
                   kernel := Matern32 (jnp_exp (log_ell params)) |} in
  let mean := mean_func (means params) in
  ({| gp_kernel := kernel;
      gp_X := (gather 0 t inds, gather 0%Z band inds);
      gp_diag := gather 0 diag inds;
      gp_mean := mean |},
   inds).

(** <<
    def loss(params):
        gp, inds = build_gp(params, X, diag)
        return -gp.log_probability(y[inds])
    >>
    with the globals [X], [diag], [y] as arguments. *)
Definition loss (X : Coords) (diag y : list Q) (params : Params) : Q :=
  let '(gp, inds) := build_gp params X diag in
  - log_probability gp (gather 0 y inds).

Definition true_params : Params := {|
  lag := 420;
  log_ell := jnp_log 100;
  amps := [8 # 100; 12 # 100];
  means := [1743 # 100; 1753 # 100]
|}.

(** <<
    gp, inds = build_gp(true_params, X, diag)
    y = jnp.empty_like(y)
    y = y.at[inds].set(gp.sample(jax.random.PRNGKey(10)))
    >>
    [empty] is the content of the array returned by [empty_like]. *)
Definition simulate (key : Key) (X : Coords) (diag empty : list Q) : list Q :=
  let '(gp, inds) := build_gp true_params X diag in
  let y := empty in
  scatter y inds (gp_sample gp key).

(** The observation passed to the GP at the call sites of the model:
    [numpyro.sample("y", gp.numpyro_dist(), obs=y[inds])] and
    [gp.condition(y[inds], ...)]. *)
Definition model_observed (params : Params) (X : Coords) (diag y : list Q)
  : GaussianProcess * list Q :=
  let '(gp, inds) := build_gp params X diag in
  (gp, gather 0 y inds).

(** Relabelling the two bands: band [b] becomes [1 - b] and the two
    amplitudes change places. *)
Definition relabel_coord (X : Coord) : Coord := (fst X, (1 - snd X)%Z).

Definition relabel_kernel (self : Multiband) : Multiband :=
  {| amplitudes := rev (amplitudes self); kernel := kernel self |}.

Lemma observation_model_relabel self X a0 a1 :
  amplitudes self = [a0; a1] -> snd X = 0%Z \/ snd X = 1%Z ->
  observation_model (relabel_kernel self) (relabel_coord X) = observation_model self X.
Proof.
  intros Ha Hb. unfold observation_model, relabel_kernel, relabel_coord. simpl.
  rewrite Ha. destruct Hb as [-> | ->]; reflexivity.
Qed.

(** C4.  For coordinates [X1 = (t1, b1)] and [X2 = (t2, b2)] with band
    indices in {0, 1} and an amplitudes array of two entries, exchanging
    the band indices of both coordinates and the two amplitudes leaves
    the covariance computed by the [Multiband] kernel unchanged. *)
Theorem multiband_relabel_symmetry self X1 X2 a0 a1 :
  amplitudes self = [a0; a1] ->
  snd X1 = 0%Z \/ snd X1 = 1%Z ->
  snd X2 = 0%Z \/ snd X2 = 1%Z ->
  evaluate (relabel_kernel self) (relabel_coord X1) (relabel_coord X2)
  = evaluate self X1 X2.
Proof.
  intros Ha H1 H2. unfold evaluate.
  rewrite (observation_model_relabel self X1 a0 a1 Ha H1).
  rewrite (observation_model_relabel self X2 a0 a1 Ha H2).
  reflexivity.
Qed.

Lemma length_time_delay_transform l t band :
  length band = length t -> length (time_delay_transform l (t, band)) = length t.
Proof. intros H. simpl. rewrite length_zip_with. lia. Qed.

Lemma lookup_time_delay_transform l t band i ti bi :
  t !! i = Some ti -> band !! i = Some bi ->
  time_delay_transform l (t, band) !! i = Some (ti - l * inject_Z bi).
Proof. intros Ht Hb. simpl. rewrite lookup_zip_with, Ht. simpl. rewrite Hb. reflexivity. Qed.


End Model.

(** A one-state stand-in for the library side, to run the definitions
    on concrete data. *)
Module Toy.

Definition Matern32 (scale : Q) : Q := scale.
Definition observation_model (k t : Q) : list Q := [1].
Definition stationary_covariance (k : Q) : Q := 1.
Definition transition (k t1 t2 : Q) : Q := k / (k + (t2 - t1)).
Definition vecmat (v : list Q) (m : Q) : list Q := map (Qmult m) v.
Definition dot (u v : list Q) : Q := foldr Qplus 0 (zip_with Qmult u v).
Definition jnp_exp (x : Q) : Q := x.
Definition jnp_log (x : Q) : Q := x.
Definition log_probability (gp : GaussianProcess Q) (y : list Q) : Q := - dot y y.
Definition gp_sample (gp : GaussianProcess Q) (key : nat) : list Q :=
  map (fun d => inject_Z (Z.of_nat key) * d) (gp_diag Q gp).

Definition self : Multiband Q := {| amplitudes := [8 # 100; 12 # 100]; kernel := 100 |}.

Definition t : list Q := [0; 100; 500; 600].
Definition band : list Z := [0; 0; 1; 1]%Z.
Definition diag : list Q := [1 # 100; 2 # 100; 3 # 100; 4 # 100].
Definition y : list Q := [17; 18; 19; 20].
Definition params : Params :=
  {| lag := 420; log_ell := 100; amps := [8 # 100; 12 # 100]; means := [17; 18] |}.

End Toy.

Example toy_inds :
  snd (build_gp Q Toy.Matern32 Toy.jnp_exp Toy.params (Toy.t, Toy.band) Toy.diag)
  = [0; 2; 1; 3]%nat.
Proof. vm_compute. reflexivity. Qed.

Example toy_gp_times :
  fst (gp_X Q (fst (build_gp Q Toy.Matern32 Toy.jnp_exp Toy.params
                      (Toy.t, Toy.band) Toy.diag)))
  = [0 # 1; 80 # 1; 100 # 1; 180 # 1].
Proof. vm_compute. reflexivity. Qed.

Example toy_observed :
  snd (model_observed Q Toy.Matern32 Toy.jnp_exp Toy.params (Toy.t, Toy.band)
         Toy.diag Toy.y)
  = [17; 19; 18; 20].
Proof. vm_compute. reflexivity. Qed.

Example toy_observation_model :
  observation_model Q Toy.observation_model Toy.self (50, 1%Z) = [12 # 100]
  /\ observation_model Q Toy.observation_model (relabel_kernel Q Toy.self) (50, 0%Z)
     = [12 # 100].
Proof. vm_compute. split; reflexivity. Qed.

Lemma multiband_relabel_symmetry_witness :
  evaluate Q Q Toy.observation_model Toy.stationary_covariance Toy.transition
    Toy.vecmat Toy.dot (relabel_kernel Q Toy.self)
    (relabel_coord (0, 0%Z)) (relabel_coord (50, 1%Z))
  = evaluate Q Q Toy.observation_model Toy.stationary_covariance Toy.transition
      Toy.vecmat Toy.dot Toy.self (0, 0%Z) (50, 1%Z).
Proof.
  apply (multiband_relabel_symmetry Q Q Toy.observation_model
           Toy.stationary_covariance Toy.transition Toy.vecmat Toy.dot
           Toy.self (0, 0%Z) (50, 1%Z) (8 # 100) (12 # 100)).
  - reflexivity.
  - left. reflexivity.
  - right. reflexivity.
Defined.


(** *** The grid search that initialises the lag *)

(** [soln = opt.run(init)]: [soln.params] and [soln.state.fun_val]. *)
Record Soln : Type := {
  soln_params : Params;
  fun_val : Q
}.

#[export] Instance Params_inhabited : Inhabited Params :=
  populate {| lag := 0; log_ell := 0; amps := []; means := [] |}.

(** The names the cell assigns, over a heap of dictionaries: [init] is a
    reference to a dictionary, [minimum] a tuple of a loss value and a
    reference to a dictionary; [lags] and [vals] are the two lists the
    loop appends to.  [opt_calls] logs the arguments of [opt.run] in call
    order. *)
Record Store : Type := {
  heap : gmap nat Params;
  init : nat;
  minimum : Q * nat;
  lags : list Q;
  vals : list Q;
  opt_calls : list Params
}.

Definition with_heap (h : gmap nat Params) (s : Store) : Store :=
  {| heap := h; init := init s; minimum := minimum s;
     lags := lags s; vals := vals s; opt_calls := opt_calls s |}.
Definition with_init (l : nat) (s : Store) : Store :=
  {| heap := heap s; init := l; minimum := minimum s;
     lags := lags s; vals := vals s; opt_calls := opt_calls s |}.
Definition with_minimum (m : Q * nat) (s : Store) : Store :=
  {| heap := heap s; init := init s; minimum := m;
     lags := lags s; vals := vals s; opt_calls := opt_calls s |}.
Definition with_lags (l : list Q) (s : Store) : Store :=
  {| heap := heap s; init := init s; minimum := minimum s;
     lags := l; vals := vals s; opt_calls := opt_calls s |}.
Definition with_vals (l : list Q) (s : Store) : Store :=
  {| heap := heap s; init := init s; minimum := minimum s;
     lags := lags s; vals := l; opt_calls := opt_calls s |}.
Definition with_opt_calls (l : list Params) (s : Store) : Store :=
  {| heap := heap s; init := init s; minimum := minimum s;
     lags := lags s; vals := vals s; opt_calls := l |}.

(** A new dictionary object. *)
Definition alloc (p : Params) (h : gmap nat Params) : nat * gmap nat Params :=
  let l := fresh (dom h) in (l, <[l := p]> h).

(** [d["lag"] = v] on a dictionary. *)
Definition set_item_lag (v : Q) (d : Params) : Params :=
  {| lag := v; log_ell := log_ell d; amps := amps d; means := means d |}.

(** [jnp.linspace(start, stop, num)]. *)
Definition linspace (start stop : Q) (num : nat) : list Q :=
  map (fun i => start + inject_Z (Z.of_nat i)
                        * ((stop - start) / inject_Z (Z.of_nat (num - 1))))
      (seq 0 num).

Section GridSearch.
Import Py.
Local Open Scope py_scope.

Variable Exn : Type.
Variable jnp_log : Q -> Q.

(** The jitted [loss], closed over the globals [X], [diag] and [y], and
    [opt = jaxopt.ScipyMinimize(fun=loss)] with its [run] method. *)
Variable loss : Params -> Q.
Variable opt_run : Params -> Exn + Soln.

(** [soln.params]: a dictionary of its own. *)
Definition new_dict (p : Params) : cell Store Exn nat :=
  fun s => let '(l, h) := alloc p (heap s) in (Returned l, with_heap h s).

(** <<
    for lag in jnp.linspace(0, 1000, 100):
        init["lag"] = lag
        soln = opt.run(init)
        lags.append(soln.params["lag"])
        vals.append(soln.state.fun_val)
        if soln.state.fun_val < minimum[0]:
            minimum = soln.state.fun_val, soln.params
    >> *)
Definition loop_body (lag_ : Q) : cell Store Exn unit :=
  modify (fun s => with_heap (alter (set_item_lag lag_) (init s) (heap s)) s) ;;
  s <- get ;;
  let arg := heap s !!! init s in
  modify (fun s => with_opt_calls (opt_calls s ++ [arg]) s) ;;
  soln <- call (opt_run arg) ;;
  params <- new_dict (soln_params soln) ;;
  modify (fun s => with_lags (lags s ++ [lag (heap s !!! params)]) s) ;;
  modify (fun s => with_vals (vals s ++ [fun_val soln]) s) ;;
  s <- get ;;
  when (Qltb (fun_val soln) (fst (minimum s)))
       (modify (with_minimum (fun_val soln, params))).

(** <<
    init = dict(true_params)
    minimum = loss(init), init
    lags = []
    vals = []
    for lag in jnp.linspace(0, 1000, 100): ...
    init = minimum[1]
    >>
    run on a heap [h0] of earlier objects. *)
Definition first_store (h0 : gmap nat Params) : Store :=
  let '(init_, h) := alloc (true_params jnp_log) h0 in
  {| heap := h; init := init_;
     minimum := (loss (h !!! init_), init_);
     lags := []; vals := []; opt_calls := [] |}.

Definition grid_search (h0 : gmap nat Params) : outcome Exn unit * Store :=
  (for_each (linspace 0 1000 100) loop_body ;;
   modify (fun s => with_init (snd (minimum s)) s)) (first_store h0).

(** The dictionary that [init] (and [minimum[1]]) names in a store. *)
Definition selected (s : Store) : Params := heap s !!! snd (minimum s).

(** **** The loop, iteration by iteration

    [opt p] is the solution [opt.run] returns when it is started from
    [p] and returns. *)

Section Runs.

Variable opt : Params -> Soln.

(** The dictionary [opt.run] is started from at grid value [g]: the
    true parameters with the lag entry replaced. *)
Definition start_at (g : Q) : Params := set_item_lag g (true_params jnp_log).

(** The content of the dictionary [init] names, after the grid values
    [done] were visited. *)
Definition current (done : list Q) : Params :=
  match last done with
  | None => true_params jnp_log
  | Some g => start_at g
  end.

(** One iteration as a store transformer. *)
Definition step (g : Q) (s : Store) : Store :=
  let h1 := alter (set_item_lag g) (init s) (heap s) in
  let arg := h1 !!! init s in
  let soln := opt arg in
  let l := fresh (dom h1) in
  let h2 := <[l := soln_params soln]> h1 in
  {| heap := h2; init := init s;
     minimum := if Qltb (fun_val soln) (fst (minimum s))
                then (fun_val soln, l) else minimum s;
     lags := lags s ++ [lag (h2 !!! l)];
     vals := vals s ++ [fun_val soln];
     opt_calls := opt_calls s ++ [arg] |}.

(** The store when [opt.run] raises in the iteration for [g]: the lag
    entry is written and the call is made, nothing else. *)
Definition interrupted (g : Q) (s : Store) : Store :=
  let h1 := alter (set_item_lag g) (init s) (heap s) in
  {| heap := h1; init := init s; minimum := minimum s;
     lags := lags s; vals := vals s;
     opt_calls := opt_calls s ++ [h1 !!! init s] |}.

Definition argument (g : Q) (s : Store) : Params :=
  alter (set_item_lag g) (init s) (heap s) !!! init s.

Lemma loop_body_step g s :
  opt_run (argument g s) = inr (opt (argument g s)) ->
  loop_body g s = (Returned tt, step g s).
Proof.
  intros Hret.
  unfold loop_body, bind, modify, get, call, new_dict, when, step, alloc. simpl.
  unfold argument in Hret. rewrite Hret. simpl.
  destruct (Qltb _ _); reflexivity.
Qed.

Lemma loop_body_interrupted g s e :
  opt_run (argument g s) = inl e ->
  loop_body g s = (Raised e, interrupted g s).
Proof.
  intros Hraise.
  unfold loop_body, bind, modify, get, call, interrupted. simpl.
  unfold argument in Hraise. rewrite Hraise. reflexivity.
Qed.

Record loop_inv (l0 : nat) (done : list Q) (s : Store) : Prop := {
  inv_init : init s = l0;
  inv_heap : heap s !! l0 = Some (current done);
  inv_calls : opt_calls s = map start_at done;
  inv_lags : lags s = map (fun g => lag (soln_params (opt (start_at g)))) done;
  inv_vals : vals s = map (fun g => fun_val (opt (start_at g))) done;
  inv_lower : Forall (fun v => fst (minimum s) <= v) (vals s);
  inv_min :
    (minimum s = (loss (true_params jnp_log), l0))
    \/ (snd (minimum s) <> l0
        /\ fst (minimum s) < loss (true_params jnp_log)
        /\ exists k g,
             done !! k = Some g
             /\ fst (minimum s) = fun_val (opt (start_at g))
             /\ heap s !! snd (minimum s) = Some (soln_params (opt (start_at g)))
             /\ forall j v, (j < k)%nat -> vals s !! j = Some v -> fst (minimum s) < v)
}.

Lemma set_item_lag_current g done : set_item_lag g (current done) = start_at g.
Proof. unfold current. destruct (last done); reflexivity. Qed.

Lemma current_snoc done g : current (done ++ [g]) = start_at g.
Proof. unfold current. rewrite last_snoc. reflexivity. Qed.

Lemma first_store_inv h0 : loop_inv (fresh (dom h0)) [] (first_store h0).
Proof.
  unfold first_store, alloc. constructor; simpl; try reflexivity.
  - apply lookup_insert_eq.
  - constructor.
  - left. rewrite lookup_total_insert_eq. reflexivity.
Qed.

Lemma step_inv l0 done g s :
  loop_inv l0 done s -> loop_inv l0 (done ++ [g]) (step g s).
Proof.
  intros [Hi Hh Hc Hl Hv Hlow Hmin].
  set (h1 := alter (set_item_lag g) (init s) (heap s)).
  assert (Hh1 : h1 !! l0 = Some (start_at g)).
  { unfold h1. rewrite Hi, lookup_alter_eq, Hh. simpl.
    rewrite set_item_lag_current. reflexivity. }
  assert (Harg : h1 !!! init s = start_at g).
  { rewrite Hi. apply lookup_total_correct. exact Hh1. }
  set (l := fresh (dom h1)).
  assert (Hfresh : h1 !! l = None).
  { apply not_elem_of_dom. apply is_fresh. }
  assert (Hne : l <> l0) by (intros ->; congruence).
  assert (Hlen : length (vals s) = length done) by (rewrite Hv; apply length_map).
  assert (Hle : fst (minimum s) <= loss (true_params jnp_log)).
  { destruct Hmin as [-> | (_ & Hlt & _)]; [apply Qle_refl | apply Qlt_le_weak, Hlt]. }
  unfold step. fold h1. fold l. rewrite Harg.
  set (soln := opt (start_at g)).
  constructor; simpl.
  - exact Hi.
  - rewrite lookup_insert_ne by exact Hne. rewrite current_snoc. exact Hh1.
  - rewrite map_app, Hc. reflexivity.
  - rewrite map_app, Hl, lookup_total_insert_eq. reflexivity.
  - rewrite map_app, Hv. reflexivity.
  - destruct (Qltb (fun_val soln) (fst (minimum s))) eqn:Hcmp; simpl.
    + apply Qltb_lt in Hcmp. apply Forall_app. split.
      * eapply Forall_impl; [exact Hlow|]. intros v Hmv. simpl in Hmv.
        apply Qlt_le_weak. eapply Qlt_le_trans; eassumption.
      * constructor; [apply Qle_refl | constructor].
    + apply Qltb_ge in Hcmp. apply Forall_app. split; [exact Hlow|].
      constructor; [exact Hcmp | constructor].
  - destruct (Qltb (fun_val soln) (fst (minimum s))) eqn:Hcmp; simpl.
    + apply Qltb_lt in Hcmp. right. split; [exact Hne|]. split.
      { eapply Qlt_le_trans; eassumption. }
      exists (length done), g. split; [apply list_lookup_middle; reflexivity|].
      split; [reflexivity|]. split; [apply lookup_insert_eq|].
      intros j v Hj Hjv. rewrite lookup_app_l in Hjv by lia.
      assert (Hmv : fst (minimum s) <= v).
      { rewrite Forall_forall in Hlow. apply Hlow.
        apply list_elem_of_lookup. eauto. }
      eapply Qlt_le_trans; eassumption.
    + destruct Hmin as [Hm | (Hsnd & Hlt & k & g' & Hk & Hfst & Hhp & Hfirst)];
        [left; exact Hm|].
      right. split; [exact Hsnd|]. split; [exact Hlt|].
      exists k, g'. split; [apply lookup_app_l_Some; exact Hk|].
      split; [exact Hfst|]. split.
      * assert (Hh1m : h1 !! snd (minimum s) = Some (soln_params (opt (start_at g')))).
        { unfold h1. rewrite lookup_alter_ne by (rewrite Hi; congruence). exact Hhp. }
        rewrite lookup_insert_ne by (intros Heq; rewrite Heq in Hfresh; congruence).
        exact Hh1m.
      * intros j v Hj Hjv. apply lookup_lt_Some in Hk.
        rewrite lookup_app_l in Hjv by lia. eapply Hfirst; eassumption.
Qed.

Lemma steps_inv l0 rest done s :
  loop_inv l0 done s ->
  loop_inv l0 (done ++ rest) (fold_left (fun s g => step g s) rest s).
Proof.
  revert done s. induction rest as [|g rest IH]; intros done s Hinv; simpl.
  - rewrite app_nil_r. exact Hinv.
  - replace (done ++ g :: rest) with ((done ++ [g]) ++ rest)
      by (rewrite <- app_assoc; reflexivity).
    apply IH, step_inv, Hinv.
Qed.

Lemma argument_start_at l0 done g s :
  loop_inv l0 done s -> argument g s = start_at g.
Proof.
  intros [Hi Hh _ _ _ _ _]. unfold argument. rewrite Hi.
  apply lookup_total_correct. rewrite lookup_alter_eq, Hh. simpl.
  rewrite set_item_lag_current. reflexivity.
Qed.

(** [opt.run] returns when started at the grid value [g]. *)
Definition returns_at (g : Q) : Prop :=
  opt_run (start_at g) = inr (opt (start_at g)).

Lemma for_each_steps l0 gs done s :
  loop_inv l0 done s -> Forall returns_at gs ->
  for_each gs loop_body s = (Returned tt, fold_left (fun s g => step g s) gs s).
Proof.
  intros Hinv Hret. revert done s Hinv.
  induction Hret as [|g gs Hg _ IH]; intros done s Hinv; simpl; [reflexivity|].
  unfold bind. rewrite loop_body_step.
  - apply (IH (done ++ [g])), step_inv, Hinv.
  - rewrite (argument_start_at _ _ _ _ Hinv). exact Hg.
Qed.

Definition grid : list Q := linspace 0 1000 100.

(** The store when the loop ends, and after the last statement
    [init = minimum[1]]. *)
Definition loop_store (h0 : gmap nat Params) : Store :=
  fold_left (fun s g => step g s) grid (first_store h0).

Definition final_store (h0 : gmap nat Params) : Store :=
  with_init (snd (minimum (loop_store h0))) (loop_store h0).

Lemma grid_search_returns h0 :
  Forall returns_at grid -> grid_search h0 = (Returned tt, final_store h0).
Proof.
  intros Hret. unfold grid_search, bind. fold grid.
  rewrite (for_each_steps _ grid [] _ (first_store_inv h0) Hret). reflexivity.
Qed.

Lemma loop_store_inv h0 : loop_inv (fresh (dom h0)) grid (loop_store h0).
Proof. apply (steps_inv _ grid []), first_store_inv. Qed.

(** The recorded loss never exceeds the loss at the true parameters. *)
Lemma recorded_loss_le h0 :
  fst (minimum (final_store h0)) <= loss (true_params jnp_log).
Proof.
  unfold final_store. pose proof (loop_store_inv h0) as Hinv.
  revert Hinv. generalize (loop_store h0). intros s [_ _ _ _ _ _ Hmin]. simpl.
  destruct Hmin as [-> | (_ & Hlt & _)]; [apply Qle_refl | apply Qlt_le_weak, Hlt].
Qed.

(** When no grid point gives a loss strictly below the loss at the true
    parameters, [minimum] keeps the first tuple, whose second entry is
    the dictionary [init] that the loop wrote every grid value into. *)
Lemma no_improvement_selected h0 :
  Forall (fun g => loss (true_params jnp_log) <= fun_val (opt (start_at g))) grid ->
  minimum (final_store h0) = (loss (true_params jnp_log), fresh (dom h0))
  /\ selected (final_store h0) = current grid.
Proof.
  intros Hall. unfold final_store, selected.
  pose proof (loop_store_inv h0) as Hinv.
  revert Hinv. generalize (loop_store h0). intros s [_ Hh _ _ _ _ Hmin]. simpl.
  destruct Hmin as [Hm | (_ & Hlt & k & g & Hk & Hfst & _)].
  - rewrite Hm. simpl. split; [reflexivity|].
    apply lookup_total_correct. exact Hh.
  - exfalso. rewrite Forall_forall in Hall.
    assert (Hg : g ∈ grid) by (apply list_elem_of_lookup; eauto).
    specialize (Hall g Hg). rewrite Hfst in Hlt.
    apply (Qlt_not_le _ _ Hlt). exact Hall.
Qed.

(** C3 (amended).  The sweep visits the fixed grid
    [linspace(0, 1000, 100)] in order; at each grid value [opt.run] is
    started from the true parameters with the lag entry set to the grid
    value and receives the whole dictionary, lag included; the lag and
    loss of each solution are recorded; the recorded loss is a lower
    bound of all solution losses and of the loss at the true parameters;
    and when some solution loss is strictly below the loss at the true
    parameters, the first solution of least loss, with its loss, is
    [minimum] and becomes [init], the MCMC initialisation. *)
Theorem grid_search_sweep h0 :
  Forall returns_at (linspace 0 1000 100) ->
  exists s,
    grid_search h0 = (Returned tt, s)
    /\ opt_calls s = map start_at (linspace 0 1000 100)
    /\ lags s = map (fun g => lag (soln_params (opt (start_at g)))) (linspace 0 1000 100)
    /\ vals s = map (fun g => fun_val (opt (start_at g))) (linspace 0 1000 100)
    /\ init s = snd (minimum s)
    /\ Forall (fun v => fst (minimum s) <= v) (vals s)
    /\ fst (minimum s) <= loss (true_params jnp_log)
    /\ ((exists v, v ∈ vals s /\ v < loss (true_params jnp_log)) ->
        exists k g,
          linspace 0 1000 100 !! k = Some g
          /\ minimum s = (fun_val (opt (start_at g)), init s)
          /\ heap s !!! init s = soln_params (opt (start_at g))
          /\ forall j v, (j < k)%nat -> vals s !! j = Some v -> fst (minimum s) < v).
Proof.
  intros Hret.
  exists (final_store h0). split; [apply grid_search_returns, Hret|]. clear Hret.
  pose proof (recorded_loss_le h0) as Hle. revert Hle.
  unfold final_store. fold grid.
  pose proof (loop_store_inv h0) as Hinv.
  revert Hinv. generalize (loop_store h0). generalize grid.
  intros gs s [Hi Hh Hc Hl Hv Hlow Hmin] Hle. simpl in *.
  repeat (split; [assumption || reflexivity|]).
  intros (v & Hin & Hlt).
  destruct Hmin as [Hm | (_ & _ & k & g & Hk & Hfst & Hhp & Hfirst)].
  - exfalso. rewrite Forall_forall in Hlow. specialize (Hlow v Hin).
    rewrite Hm in Hlow. simpl in Hlow. apply (Qlt_not_le _ _ Hlt). exact Hlow.
  - exists k, g. split; [exact Hk|]. split.
    + rewrite <- Hfst. destruct (minimum _); reflexivity.
    + split; [apply lookup_total_correct; exact Hhp | exact Hfirst].
Qed.

(** When [opt.run] raises at the grid value [g], after returning at the
    grid values [done] before it: the cell ends with that exception; the
    call log ends with the failed call, so the call is not repeated and
    no later grid value is tried; [lags] and [vals] hold the entries of
    the completed iterations and none for [g]; [minimum] is as the
    completed iterations left it; [init] still names the first
    dictionary, the last statement [init = minimum[1]] did not run. *)
Lemma grid_search_interrupted h0 done g rest e :
  linspace 0 1000 100 = done ++ g :: rest ->
  Forall returns_at done ->
  opt_run (start_at g) = inl e ->
  exists s,
    grid_search h0 = (Raised e, s)
    /\ opt_calls s = map start_at (done ++ [g])
    /\ lags s = map (fun g => lag (soln_params (opt (start_at g)))) done
    /\ vals s = map (fun g => fun_val (opt (start_at g))) done
    /\ minimum s = minimum (fold_left (fun s g => step g s) done (first_store h0))
    /\ init s = fresh (dom h0)
    /\ heap s !! init s = Some (start_at g).
Proof.
  intros Hgrid Hret Hraise.
  pose proof (steps_inv _ done [] _ (first_store_inv h0)) as Hinv. simpl in Hinv.
  exists (interrupted g (fold_left (fun s g => step g s) done (first_store h0))).
  split.
  - unfold grid_search, bind. rewrite Hgrid, for_each_app.
    rewrite (for_each_steps _ done [] _ (first_store_inv h0) Hret).
    simpl. unfold bind. rewrite (loop_body_interrupted _ _ e); [reflexivity|].
    rewrite (argument_start_at _ _ _ _ Hinv). exact Hraise.
  - pose proof (argument_start_at _ _ g _ Hinv) as Harg. unfold argument in Harg.
    revert Hinv Harg. generalize (fold_left (fun s g => step g s) done (first_store h0)).
    intros s [Hi Hh Hc Hl Hv _ _] Harg. unfold interrupted. simpl.
    rewrite Harg, map_app, Hc. repeat (split; [assumption || reflexivity|]).
    rewrite Hi, lookup_alter_eq, Hh. simpl. rewrite set_item_lag_current. reflexivity.
Qed.

End Runs.

End GridSearch.

(** *** The grid search on concrete losses and optimizers *)

(** A loss with one minimum, at [lag = target]. *)
Definition quadratic_loss (target : Q) (p : Params) : Q :=
  (lag p - target) * (lag p - target).

(** An optimizer that returns the point it was started from, with the
    loss there (no step accepted). *)
Definition stalled_opt (loss : Params -> Q) (p : Params) : Soln :=
  {| soln_params := p; fun_val := loss p |}.

(** One Newton step on [quadratic_loss target]: every start lands on
    the minimum, where the loss is 0. *)
Definition newton_opt (target : Q) (p : Params) : Soln :=
  {| soln_params := set_item_lag target p; fun_val := 0 |}.

Definition run_stalled : Store :=
  snd (grid_search Empty_set Toy.jnp_log (quadratic_loss 420)
         (fun p => inr (stalled_opt (quadratic_loss 420) p)) ∅).

Definition run_newton : Store :=
  snd (grid_search Empty_set Toy.jnp_log (quadratic_loss 400)
         (fun p => inr (newton_opt 400 p)) ∅).

Example linspace_ends :
  linspace 0 1000 100 !! 0%nat = Some (0 + 0 * (1000 / 99))
  /\ Qred <$> linspace 0 1000 100 !! 1%nat = Some (1000 # 99)
  /\ Qred <$> linspace 0 1000 100 !! 99%nat = Some 1000
  /\ length (linspace 0 1000 100) = 100%nat.
Proof. vm_compute. repeat split; reflexivity. Qed.

(** C2 (the code at a failing input).  With a loss whose minimum is at
    the true lag and an optimizer that never improves on its start, no
    grid point is strictly below the loss at the true parameters, which
    is 0.  The cell ends with the recorded loss 0, but the dictionary in
    [minimum[1]] (and [init]) is the one the loop kept writing the grid
    values into: its lag is 1000, the last grid value, and its loss is
    336400, above the loss at the true parameters. *)
Theorem grid_search_aliasing :
  fst (minimum run_stalled) == 0
  /\ quadratic_loss 420 (true_params Toy.jnp_log) == 0
  /\ Forall (fun v => 0 < v) (vals run_stalled)
  /\ init run_stalled = snd (minimum run_stalled)
  /\ lag (selected run_stalled) == 1000
  /\ quadratic_loss 420 (selected run_stalled) == 336400
  /\ ~ quadratic_loss 420 (selected run_stalled) == fst (minimum run_stalled)
  /\ ~ quadratic_loss 420 (selected run_stalled)
        <= quadratic_loss 420 (true_params Toy.jnp_log).
Proof.
  split; [vm_compute; reflexivity|]. split; [vm_compute; reflexivity|].
  split.
  { apply (Forall_of_forallb (Qltb 0)); [intros v; apply Qltb_lt|].
    vm_compute. reflexivity. }
  split; [vm_compute; reflexivity|]. split; [vm_compute; reflexivity|].
  split; [vm_compute; reflexivity|].
  split; [vm_compute; intros H; discriminate H|].
  apply Qlt_not_le. vm_compute. reflexivity.
Qed.

(** C3 (counterexample).  With a loss whose minimum is at lag 400 the
    optimizer started at the grid value 0 returns a solution whose lag
    is 400: the lag entry is optimized with the rest, not held at the
    grid value. *)
Lemma lag_not_held_at_grid_value :
  ~ (forall k g, linspace 0 1000 100 !! k = Some g ->
       exists l, lags run_newton !! k = Some l /\ l == g).
Proof.
  intros H. destruct (H 0%nat _ eq_refl) as (l & Hl & Heq).
  vm_compute in Hl. injection Hl as <-. vm_compute in Heq. discriminate Heq.
Qed.

Example run_newton_selected :
  lag (selected run_newton) == 400
  /\ fst (minimum run_newton) == 0
  /\ forallb (fun g => negb (Qeq_bool g (lag (selected run_newton))))
             (linspace 0 1000 100) = true.
Proof. vm_compute. repeat split; reflexivity. Qed.

Lemma grid_search_sweep_witness :
  Forall (returns_at Empty_set Toy.jnp_log (fun p => inr (newton_opt 400 p))
            (newton_opt 400)) (linspace 0 1000 100)
  /\ exists s,
       grid_search Empty_set Toy.jnp_log (quadratic_loss 400)
         (fun p => inr (newton_opt 400 p)) ∅ = (Py.Returned tt, s)
       /\ init s = snd (minimum s)
       /\ fst (minimum s) <= quadratic_loss 400 (true_params Toy.jnp_log).
Proof.
  assert (Hret : Forall (returns_at Empty_set Toy.jnp_log
                           (fun p => inr (newton_opt 400 p)) (newton_opt 400))
                        (linspace 0 1000 100))
    by (apply Forall_forall; intros g _; reflexivity).
  split; [exact Hret|].
  destruct (grid_search_sweep Empty_set Toy.jnp_log (quadratic_loss 400)
              (fun p => inr (newton_opt 400 p)) (newton_opt 400) ∅ Hret)
    as (s & Hrun & _ & _ & _ & Hinit & _ & Hle & _).
  exists s. split; [exact Hrun|]. split; [exact Hinit | exact Hle].
Defined.

End Quasar.

(** ** The driver cells of the three notebooks

    The statements of every cell that runs after the simulated
    observations exist, in source order.  Argument lists are shortened
    in the source texts. *)

Module Drivers.
Import Py Notebook.

(** Closes [Forall (frames x) cell] for a concrete name [x] and a
    concrete cell. *)
Ltac frame_side :=
  match goal with
  | |- _ <> _ => discriminate
  | |- _ ∉ _ => rewrite !not_elem_of_cons; repeat split;
                 [discriminate .. | apply not_elem_of_nil]
  end.

Ltac solve_frames :=
  repeat first
    [ apply Forall_nil_2
    | apply Forall_cons_2
    | apply frames_expr
    | apply frames_assign; frame_side
    | apply frames_def; frame_side
    | apply frames_import; frame_side
    | apply frames_assign_unpack; frame_side
    | apply frames_in_place; frame_side
    | apply frames_time_magic
    | apply frames_for; [frame_side|]
    | apply frames_if
    | apply frames_with ].

(** The source texts of the sampler and optimizer invocations. *)
Definition run_call (sampler args : string) : string :=
  sampler +:+ ".run(" +:+ args +:+ ")".

Definition optimize_call : string :=
  "optimize(mod)(jax.random.PRNGKey(0), t[mask_train], y[mask_train], t_pred=t_pred)".
Definition predictive_call : string :=
  "infer.Predictive(mod, soln)(jax.random.PRNGKey(0), t[mask_train], y[mask_train], t_pred=t_pred)".
Definition mcmc_args : string :=
  "jax.random.PRNGKey(0), t[mask_train], y[mask_train], t[~mask_train], y[~mask_train]".
Definition nested_args : string := "jax.random.PRNGKey(0), t, y".
Definition quasar_args : string := "jax.random.PRNGKey(12), X, diag, y".
Definition transit_wn_args : string :=
  "jax.random.PRNGKey(11), t, y_err, y, use_gp=False".
Definition transit_gp_args : string :=
  "jax.random.PRNGKey(12), t, y_err, y, use_gp=True".

Section Cells.

Variables Obj Exn : Type.
Variable eval : string -> World Obj Exn -> Exn + Obj.
Variable unpack : nat -> Obj -> Obj.
Variable items : Obj -> list Obj.
Variable truthy : Obj -> bool.
Variable time_swallows : bool.

Abbreviation stmt := (stmt Obj Exn).
Abbreviation assign := (assign Obj Exn eval).
Abbreviation assign_unpack := (assign_unpack Obj Exn eval unpack).
Abbreviation in_place := (in_place Obj Exn eval unpack).
Abbreviation expr := (expr Obj Exn eval).
Abbreviation def_ := (def_ Obj Exn eval).
Abbreviation import_ := (import_ Obj Exn eval).
Abbreviation for_ := (for_ Obj Exn eval items).
Abbreviation if_ := (if_ Obj Exn eval truthy).
Abbreviation with_ := (with_ Obj Exn eval).
Abbreviation time_magic := (time_magic Obj Exn time_swallows).
Abbreviation block := (block Obj Exn).

(** *** Kernel assessment *)

(** After [mask_train] is set: the rest of the simulation cell. *)
Definition assessment_plot_data : list stmt := [
  expr "plt.plot(t[mask_train], y[mask_train], '.k', label='training data')";
  expr "plt.plot(t[~mask_train], y[~mask_train], '+C0', label='held out data')";
  expr "plt.legend(loc='upper right')";
  expr "plt.xlabel('x')";
  expr "plt.ylabel('y')"
].

Definition assessment_models : list stmt := [
  def_ "model";
  def_ "build_exp_sq";
  def_ "build_matern";
  def_ "build_raquad";
  assign "sampler_exp_sq" "infer.MCMC(infer.NUTS(partial(model, build_exp_sq), ...), ...)";
  assign "sampler_matern" "infer.MCMC(infer.NUTS(partial(model, build_matern), ...), ...)";
  assign "sampler_raquad" "infer.MCMC(infer.NUTS(partial(model, build_raquad), ...), ...)"
].

Definition assessment_max_like : list stmt := [
  assign "t_pred" "jnp.linspace(-1, 11, 500)";
  assign "mod" "partial(model, build_matern)";
  assign "soln" optimize_call;
  assign "samp" predictive_call
].

(** <<
    sampler_exp_sq.run(jax.random.PRNGKey(0), t[mask_train], y[mask_train],
                       t[~mask_train], y[~mask_train])
    inf_exp_sq = az.from_numpyro(sampler_exp_sq)
    corner.corner(inf_exp_sq)
    az.summary(inf_exp_sq)
    >>
    and the same for the other two kernels. *)
Definition mcmc_cell (sampler inf : string) : list stmt := [
  in_place [sampler] (run_call sampler mcmc_args);
  assign inf ("az.from_numpyro(" +:+ sampler +:+ ")");
  expr ("corner.corner(" +:+ inf +:+ ")");
  expr ("az.summary(" +:+ inf +:+ ")")
].

Definition assessment_mcmc_exp_sq := mcmc_cell "sampler_exp_sq" "inf_exp_sq".
Definition assessment_mcmc_matern := mcmc_cell "sampler_matern" "inf_matern".
Definition assessment_mcmc_raquad := mcmc_cell "sampler_raquad" "inf_raquad".

Definition assessment_histograms : list stmt := [
  expr "plt.figure(figsize=(5, 5))";
  expr "plt.hist(inf_exp_sq.posterior['log_prob_test'].values.flatten(), 50, ...)";
  expr "plt.hist(inf_raquad.posterior['log_prob_test'].values.flatten(), 50, ...)";
  expr "plt.hist(inf_matern.posterior['log_prob_test'].values.flatten(), 50, ...)";
  expr "plt.legend(loc='upper left')";
  expr "plt.yticks([])";
  expr "plt.ylabel('posterior density')";
  expr "plt.xlabel('log probability of held out data')"
].

(** <<
    ns_exp_sq = NestedSampler(partial(model, build_exp_sq))
    ns_exp_sq.run(jax.random.PRNGKey(0), t, y)
    ns_exp_sq._results.log_Z_mean, ns_exp_sq._results.log_Z_uncert
    >>
    and the same for the other two kernels. *)
Definition nested_cell (ns builder : string) : list stmt := [
  assign ns ("NestedSampler(partial(model, " +:+ builder +:+ "))");
  in_place [ns] (run_call ns nested_args);
  expr (ns +:+ "._results.log_Z_mean, " +:+ ns +:+ "._results.log_Z_uncert")
].

Definition assessment_ns_exp_sq : list stmt :=
  import_ "NestedSampler" :: nested_cell "ns_exp_sq" "build_exp_sq".
Definition assessment_ns_matern := nested_cell "ns_matern" "build_matern".
Definition assessment_ns_raquad := nested_cell "ns_raquad" "build_raquad".

Definition evidence_lists : list stmt := [
  assign "log_Z" "[ns_exp_sq._results.log_Z_mean, ns_raquad._results.log_Z_mean, ns_matern._results.log_Z_mean]";
  assign "log_Z_uncert" "[ns_exp_sq._results.log_Z_uncert, ns_raquad._results.log_Z_uncert, ns_matern._results.log_Z_uncert]";
  assign "names" "['squared exp.', 'rational quad.', 'Matern-3/2']"
].

Definition assessment_evidence : list stmt :=
  evidence_lists ++ [
  expr "plt.figure(figsize=(2, 5))";
  expr "plt.errorbar(names, log_Z, yerr=log_Z_uncert, fmt='o')";
  expr "plt.xlim(-1, 3)";
  expr "[lbl.set_rotation(45) for lbl in plt.gca().get_xticklabels()]";
  expr "plt.ylabel('log(evidence)')"
].

(** A method of the current axes: the axes object is also reachable
    through [axes] and [fig]. *)
Definition on_ax (src : string) : stmt := in_place ["ax"; "axes"; "fig"] src.

Definition assessment_figure : list stmt := [
  assign_unpack ["fig"; "axes"] "plt.subplot_mosaic([['A', 'B', 'C']], ...)";
  assign "ax" "axes['A']";
  on_ax "ax.plot(t[mask_train], y[mask_train], '.k', label='training')";
  on_ax "ax.plot(t[~mask_train], y[~mask_train], '+C0', label='held out')";
  on_ax "ax.plot(t_pred, samp['mean_pred'], 'C1', label='max. like.', lw=0.5)";
  on_ax "ax.fill_between(t_pred, samp['mean_pred'] - samp['std_pred'], samp['mean_pred'] + samp['std_pred'], ...)";
  on_ax "ax.legend(loc='upper right')";
  on_ax "ax.set_xlabel('x')";
  on_ax "ax.set_ylabel('y')";
  on_ax "ax.set_xlim(t_pred.min(), t_pred.max())";
  on_ax "ax.set_title('data')";
  assign "ax" "axes['B']" ] ++
  evidence_lists ++ [
  on_ax "ax.errorbar(names, log_Z, yerr=log_Z_uncert, fmt='ok')";
  on_ax "ax.set_xlim(-1, 3)";
  expr "[lbl.set_rotation(45) for lbl in ax.get_xticklabels()]";
  on_ax "ax.set_ylabel('log(evidence)')";
  on_ax "ax.set_title('Bayesian evidence')";
  assign "ax" "axes['C']";
  on_ax "ax.hist(inf_exp_sq.posterior['log_prob_test'].values.flatten(), 50, ...)";
  on_ax "ax.hist(inf_raquad.posterior['log_prob_test'].values.flatten(), 50, ...)";
  on_ax "ax.hist(inf_matern.posterior['log_prob_test'].values.flatten(), 50, ...)";
  on_ax "ax.legend(loc='upper left', fontsize=12)";
  on_ax "ax.set_yticks([])";
  on_ax "ax.set_ylabel('posterior density')";
  on_ax "ax.set_xlabel('log probability of held out data')";
  on_ax "ax.set_title('posterior predictive')";
  expr "plt.savefig(figures / 'assessment.pdf', bbox_inches='tight')"
].

Definition assessment_cells : list (list stmt) := [
  assessment_plot_data; assessment_models; assessment_max_like;
  assessment_mcmc_exp_sq; assessment_mcmc_matern; assessment_mcmc_raquad;
  assessment_histograms;
  assessment_ns_exp_sq; assessment_ns_matern; assessment_ns_raquad;
  assessment_evidence; assessment_figure
].

(** The observation set: times, values and the noise level. *)
Definition assessment_observations : list string := ["t"; "y"; "yerr"].

Lemma assessment_frames x :
  x ∈ assessment_observations ->
  Forall (fun c => Forall (frames Obj Exn x) c) assessment_cells.
Proof.
  unfold assessment_observations. rewrite !elem_of_cons, elem_of_nil.
  intros [-> | [-> | [-> | []]]];
    unfold assessment_cells, assessment_plot_data, assessment_models,
      assessment_max_like, assessment_mcmc_exp_sq, assessment_mcmc_matern,
      assessment_mcmc_raquad, mcmc_cell, assessment_histograms,
      assessment_ns_exp_sq, assessment_ns_matern, assessment_ns_raquad,
      nested_cell, assessment_evidence, assessment_figure, evidence_lists, on_ax;
    simpl app; solve_frames.
Qed.

(** *** Quasar time delay *)

(** After [y = y.at[inds].set(...)]: the rest of the simulation cell. *)
Definition quasar_plot_data : list stmt := [
  expr "plt.plot(X[0][X[1] == 0], y[X[1] == 0], '.', label='a')";
  expr "plt.plot(X[0][X[1] == 1], y[X[1] == 1], '.', label='b')"
].

(** The dictionary [init] is also the second entry of [minimum] when
    the loop starts, so the subscript assignment lists both names. *)
Definition quasar_grid_search : list stmt := [
  assign "opt" "jaxopt.ScipyMinimize(fun=loss)";
  assign "init" "dict(true_params)";
  assign "minimum" "loss(init), init";
  assign "lags" "[]";
  assign "vals" "[]";
  for_ "lag" "jnp.linspace(0, 1000, 100)" [
    in_place ["init"; "minimum"] "init['lag'] = lag";
    assign "soln" "opt.run(init)";
    in_place ["lags"] "lags.append(soln.params['lag'])";
    in_place ["vals"] "vals.append(soln.state.fun_val)";
    if_ "soln.state.fun_val < minimum[0]" [
      assign "minimum" "soln.state.fun_val, soln.params"
    ]
  ];
  assign "init" "minimum[1]";
  expr "plt.plot(lags, vals, '.', alpha=0.2)";
  expr "plt.xlabel('lag [days]')";
  expr "plt.ylabel('loss minimized over other parameters')"
].

Definition quasar_prediction_grid : list stmt := [
  assign "t_lagged" "X[0] - minimum[1]['lag'] * X[1]";
  assign "t_grid" "jnp.linspace(t_lagged.min() - 200, t_lagged.max() + 200, 1000)"
].

Definition quasar_mcmc : list stmt := [
  def_ "model";
  assign "init_params" "dict(minimum[1])";
  in_place ["init_params"] "init_params['mean_a'] = init_params['means'][0]";
  in_place ["init_params"] "init_params['delta_mean'] = init_params['means'][1] - init_params['means'][0]";
  assign "sampler" "infer.MCMC(infer.NUTS(model, ..., init_strategy=infer.init_to_value(values=init_params)), ...)";
  time_magic (in_place ["sampler"] (run_call "sampler" quasar_args))
].

Definition quasar_summary : list stmt := [
  assign "inf_data" "az.from_numpyro(sampler)";
  expr "az.summary(inf_data, var_names=['lag', 'delta_mean'])"
].

Definition quasar_corner : list stmt := [
  with_ "mpl.rc_context({'font.size': 14})" [
    assign "fig" "corner.corner(inf_data, var_names=['lag', 'delta_mean'], ...)";
    in_place ["fig"] "fig.savefig(figures / 'quasar_posteriors.pdf', bbox_inches='tight')"
  ]
].

Definition quasar_figure : list stmt := [
  assign "samples" "sampler.get_samples()";
  assign "lag" "jnp.median(samples['lag'])";
  assign "pred_a" "samples['pred_a']";
  assign "pred_b" "samples['pred_b']";
  assign "inds" "jax.random.randint(jax.random.PRNGKey(134), (12,), 0, len(pred_a))";
  assign "offset" "0.3";
  expr "plt.figure(figsize=(5, 3.5))";
  expr "plt.plot(t_grid + lag, pred_a[inds, :].T, c='C0', alpha=0.3, lw=0.5)";
  expr "plt.plot(t_grid + lag, pred_b[inds, :].T + offset, c='C1', alpha=0.3, lw=0.5)";
  assign "a" "X[1] == 0";
  expr "plt.errorbar(X[0][a] + lag, y[a], yerr=jnp.sqrt(diag[a]), ...)";
  assign "b" "X[1] == 1";
  expr "plt.errorbar(X[0][b], y[b] + offset, yerr=jnp.sqrt(diag[b]), ...)";
  expr "plt.ylim(plt.ylim()[::-1])";
  expr "plt.xlabel(f'time [days; A shifted +{lag:.0f} days]')";
  expr "plt.ylabel(f'magnitude [B shifted +{offset}]')";
  expr "plt.xlim(t_grid.min() + lag, t_grid.max() + lag)";
  expr "plt.legend(loc='lower right', fontsize=10)";
  expr "plt.savefig(figures / 'quasar.pdf', bbox_inches='tight')"
].

Definition quasar_cells : list (list stmt) := [
  quasar_plot_data; quasar_grid_search; quasar_prediction_grid; quasar_mcmc;
  quasar_summary; quasar_corner; quasar_figure
].

(** The observation set: coordinates [(jd, band)], magnitudes and
    squared magnitude errors. *)
Definition quasar_observations : list string := ["X"; "y"; "diag"].

Lemma quasar_frames x :
  x ∈ quasar_observations ->
  Forall (fun c => Forall (frames Obj Exn x) c) quasar_cells.
Proof.
  unfold quasar_observations. rewrite !elem_of_cons, elem_of_nil.
  intros [-> | [-> | [-> | []]]];
    unfold quasar_cells, quasar_plot_data, quasar_grid_search,
      quasar_prediction_grid, quasar_mcmc, quasar_summary, quasar_corner,
      quasar_figure;
    solve_frames.
Qed.

(** *** Transit *)

(** After [y = gp.sample(...)]: the rest of the simulation cell. *)
Definition transit_plot_data : list stmt := [
  expr "plt.plot(t, y, '.')";
  expr "plt.xlabel('time')";
  expr "plt.ylabel('relative flux')"
].

Definition transit_model : list stmt := [ def_ "model" ].

(** <<
    sampler_wn = infer.MCMC(infer.NUTS(model, ...), ...)
    %time sampler_wn.run(jax.random.PRNGKey(11), t, y_err, y, use_gp=False)
    inf_data_wn = az.from_numpyro(sampler_wn)
    az.summary(inf_data_wn, var_names=["t0", "r"])
    >>
    and the same with [use_gp=True]. *)
Definition transit_fit (sampler inf run_args : string) : list stmt := [
  assign sampler "infer.MCMC(infer.NUTS(model, ..., init_strategy=infer.init_to_value(values=true_params)), ...)";
  time_magic (in_place [sampler] (run_call sampler run_args));
  assign inf ("az.from_numpyro(" +:+ sampler +:+ ")");
  expr ("az.summary(" +:+ inf +:+ ", var_names=['t0', 'r'])")
].

Definition transit_white_noise : list stmt :=
  transit_fit "sampler_wn" "inf_data_wn" transit_wn_args.

Definition transit_gp : list stmt :=
  transit_fit "sampler" "inf_data" transit_gp_args.

Definition transit_corner : list stmt := [
  with_ "mpl.rc_context({'font.size': 14})" [
    assign "p1" "inf_data.posterior";
    assign "p2" "inf_data_wn.posterior";
    assign "ranges" "[(min(...), max(...)), (0.07, max(...))]";
    assign "fig" "corner.corner(inf_data_wn, range=ranges, bins=30, var_names=['t0', 'r'], color='C1')";
    assign "fig" "corner.corner(inf_data, range=ranges, ..., fig=fig)";
    in_place ["fig"] "fig.savefig(figures / 'transit_posteriors.pdf', bbox_inches='tight')"
  ]
].

Definition transit_figure : list stmt := [
  assign "samples" "sampler.get_samples()";
  assign "pred_gp" "samples['gp'] + samples['mu']";
  assign "pred" "samples['mu']";
  assign "samples_wn" "sampler_wn.get_samples()";
  assign "pred_wn" "samples_wn['mu']";
  assign "inds" "jax.random.randint(jax.random.PRNGKey(0), (12,), 0, len(pred_gp))";
  expr "plt.figure(figsize=(5, 3.5))";
  expr "plt.errorbar(t, y, yerr=y_err, fmt='.k')";
  expr "plt.plot(t_grid, pred_wn[inds].T, 'C1', alpha=0.1)";
  expr "plt.plot(t_grid, jnp.median(pred_wn, axis=0), 'C1', label='without GP')";
  expr "plt.plot(t_grid, pred_gp[inds].T, 'C0', alpha=0.1)";
  expr "plt.plot(t_grid, jnp.median(pred_gp, axis=0), 'C0', label='with GP')";
  expr "plt.plot(t_grid, light_curve(true_params, t_grid), 'k--', lw=1, label='ground truth')";
  expr "plt.xlim(-0.22, 0.22)";
  expr "plt.legend(fontsize=10, loc='lower right')";
  expr "plt.xlabel('time [days]')";
  expr "plt.ylabel('relative flux')";
  expr "plt.savefig(figures / 'transit.pdf', bbox_inches='tight')"
].

Definition transit_cells : list (list stmt) := [
  transit_plot_data; transit_model; transit_white_noise; transit_gp;
  transit_corner; transit_figure
].

(** The observation set: times, fluxes and the flux error. *)
Definition transit_observations : list string := ["t"; "y"; "y_err"].

Lemma transit_frames x :
  x ∈ transit_observations ->
  Forall (fun c => Forall (frames Obj Exn x) c) transit_cells.
Proof.
  unfold transit_observations. rewrite !elem_of_cons, elem_of_nil.
  intros [-> | [-> | [-> | []]]];
    unfold transit_cells, transit_plot_data, transit_model, transit_white_noise,
      transit_gp, transit_fit, transit_corner, transit_figure;
    solve_frames.
Qed.

(** C7.  In each notebook, whatever the libraries return or raise and
    whatever the state the simulation left, running the cells that
    follow the simulation (plots of the data, the split's use, model
    fitting, scoring, plotting) leaves the names of the observation set
    bound to the values they had: coordinates, values and uncertainties
    are not modified. *)
Theorem observations_immutable (w : World Obj Exn) :
  Forall (fun x => globals Obj Exn (run_cells Obj Exn assessment_cells w) !! x
                   = globals Obj Exn w !! x) assessment_observations
  /\ Forall (fun x => globals Obj Exn (run_cells Obj Exn quasar_cells w) !! x
                      = globals Obj Exn w !! x) quasar_observations
  /\ Forall (fun x => globals Obj Exn (run_cells Obj Exn transit_cells w) !! x
                      = globals Obj Exn w !! x) transit_observations.
Proof.
  repeat split; apply Forall_forall; intros x Hx; apply frames_run_cells.
  - apply assessment_frames, Hx.
  - apply quasar_frames, Hx.
  - apply transit_frames, Hx.
Qed.

(** The invocations written as plain statements: the maximum-likelihood
    optimizer and the predictive sampler, the three MCMC runs and the
    three nested-sampling runs of the assessment notebook. *)
Lemma plain_invocations_abort :
  aborts Obj Exn eval assessment_max_like 2 optimize_call
  /\ aborts Obj Exn eval assessment_max_like 3 predictive_call
  /\ aborts Obj Exn eval assessment_mcmc_exp_sq 0 (run_call "sampler_exp_sq" mcmc_args)
  /\ aborts Obj Exn eval assessment_mcmc_matern 0 (run_call "sampler_matern" mcmc_args)
  /\ aborts Obj Exn eval assessment_mcmc_raquad 0 (run_call "sampler_raquad" mcmc_args)
  /\ aborts Obj Exn eval assessment_ns_exp_sq 2 (run_call "ns_exp_sq" nested_args)
  /\ aborts Obj Exn eval assessment_ns_matern 1 (run_call "ns_matern" nested_args)
  /\ aborts Obj Exn eval assessment_ns_raquad 1 (run_call "ns_raquad" nested_args).
Proof.
  repeat split;
    (eapply aborts_intro;
     [reflexivity
     | intros w e H; first [apply assign_raises | apply in_place_raises]; exact H]).
Qed.

(** The MCMC runs started through [%time]: the quasar fit and the two
    transit fits.  When [%time] swallows exceptions the cell goes on with
    the statements after the run. *)
Lemma timed_invocations_report :
  time_swallows = true ->
  reports Obj Exn eval quasar_mcmc 5 (run_call "sampler" quasar_args)
  /\ reports Obj Exn eval transit_white_noise 1 (run_call "sampler_wn" transit_wn_args)
  /\ reports Obj Exn eval transit_gp 1 (run_call "sampler" transit_gp_args).
Proof.
  intros Hs. repeat split;
    (eapply reports_intro;
     [reflexivity | intros w e H; apply time_magic_reports; [exact Hs | exact H]]).
Qed.

(** When [%time] lets exceptions through, the timed runs abort their
    cells as the plain ones do. *)
Lemma timed_invocations_abort :
  time_swallows = false ->
  aborts Obj Exn eval quasar_mcmc 5 (run_call "sampler" quasar_args)
  /\ aborts Obj Exn eval transit_white_noise 1 (run_call "sampler_wn" transit_wn_args)
  /\ aborts Obj Exn eval transit_gp 1 (run_call "sampler" transit_gp_args).
Proof.
  intros Hs. repeat split;
    (eapply aborts_intro;
     [reflexivity | intros w e H; apply time_magic_raises; [exact Hs | exact H]]).
Qed.

End Cells.

End Drivers.

(** ** Failures of the samplers and optimizers *)

Module Errors.
Import Py Notebook Drivers.

Local Open Scope Q_scope.

(** X17.  No cell of the drivers handles an exception of its own.  For
    every sampler or optimizer invocation written as a plain statement
    (the optimizer and the predictive sampler of the maximum-likelihood
    cell, the three MCMC runs and the three nested-sampling runs of the
    assessment notebook), an exception raised by the invocation ends the
    cell with that exception: the globals are as the earlier statements
    left them and the failed evaluation is the last event, so nothing is
    retried and no fallback is computed.  In the grid search, an
    exception of [opt.run] at a grid value ends the cell the same way:
    the failed call is the last call, [lags], [vals] and [minimum] are as
    the completed iterations left them, and [init] is not rebound. *)
Theorem untimed_invocation_failures
    (Obj Exn : Type) (eval : string -> World Obj Exn -> Exn + Obj)
    (unpack : nat -> Obj -> Obj)
    (jnp_log : Q -> Q) (loss : Quasar.Params -> Q)
    (opt_run : Quasar.Params -> Exn + Quasar.Soln)
    (opt : Quasar.Params -> Quasar.Soln) (h0 : gmap nat Quasar.Params)
    (done : list Q) (g : Q) (rest : list Q) (e : Exn) :
  Quasar.linspace 0 1000 100 = done ++ g :: rest ->
  Forall (Quasar.returns_at Exn jnp_log opt_run opt) done ->
  opt_run (Quasar.start_at jnp_log g) = inl e ->
  (aborts Obj Exn eval (assessment_max_like Obj Exn eval) 2 optimize_call
   /\ aborts Obj Exn eval (assessment_max_like Obj Exn eval) 3 predictive_call
   /\ aborts Obj Exn eval (assessment_mcmc_exp_sq Obj Exn eval unpack) 0
        (run_call "sampler_exp_sq" mcmc_args)
   /\ aborts Obj Exn eval (assessment_mcmc_matern Obj Exn eval unpack) 0
        (run_call "sampler_matern" mcmc_args)
   /\ aborts Obj Exn eval (assessment_mcmc_raquad Obj Exn eval unpack) 0
        (run_call "sampler_raquad" mcmc_args)
   /\ aborts Obj Exn eval (assessment_ns_exp_sq Obj Exn eval unpack) 2
        (run_call "ns_exp_sq" nested_args)
   /\ aborts Obj Exn eval (assessment_ns_matern Obj Exn eval unpack) 1
        (run_call "ns_matern" nested_args)
   /\ aborts Obj Exn eval (assessment_ns_raquad Obj Exn eval unpack) 1
        (run_call "ns_raquad" nested_args))
  /\ (exists s,
        Quasar.grid_search Exn jnp_log loss opt_run h0 = (Raised e, s)
        /\ Quasar.opt_calls s = map (Quasar.start_at jnp_log) (done ++ [g])
        /\ Quasar.lags s
           = map (fun g => Quasar.lag (Quasar.soln_params (opt (Quasar.start_at jnp_log g)))) done
        /\ Quasar.vals s
           = map (fun g => Quasar.fun_val (opt (Quasar.start_at jnp_log g))) done
        /\ Quasar.minimum s
           = Quasar.minimum (fold_left (fun s g => Quasar.step opt g s) done
                               (Quasar.first_store jnp_log loss h0))
        /\ Quasar.init s = fresh (dom h0)
        /\ Quasar.heap s !! Quasar.init s = Some (Quasar.start_at jnp_log g)).
Proof.
  intros Hgrid Hret Hraise. split; [apply plain_invocations_abort|].
  apply (Quasar.grid_search_interrupted Exn jnp_log loss opt_run opt h0
           done g rest e Hgrid Hret Hraise).
Qed.

(** The three MCMC runs started through [%time] (the quasar fit, the two
    transit fits), for either behaviour of the magic: when it lets
    exceptions through, an exception of the run ends the cell as for the
    plain invocations; when it swallows them, the traceback is shown and
    the cell goes on with the statements after the run. *)
Lemma timed_invocation_failures
    (Obj Exn : Type) (eval : string -> World Obj Exn -> Exn + Obj)
    (unpack : nat -> Obj -> Obj) :
  (aborts Obj Exn eval (quasar_mcmc Obj Exn eval unpack false) 5
     (run_call "sampler" quasar_args)
   /\ aborts Obj Exn eval (transit_white_noise Obj Exn eval unpack false) 1
        (run_call "sampler_wn" transit_wn_args)
   /\ aborts Obj Exn eval (transit_gp Obj Exn eval unpack false) 1
        (run_call "sampler" transit_gp_args))
  /\ (reports Obj Exn eval (quasar_mcmc Obj Exn eval unpack true) 5
        (run_call "sampler" quasar_args)
      /\ reports Obj Exn eval (transit_white_noise Obj Exn eval unpack true) 1
           (run_call "sampler_wn" transit_wn_args)
      /\ reports Obj Exn eval (transit_gp Obj Exn eval unpack true) 1
           (run_call "sampler" transit_gp_args)).
Proof.
  split; [apply timed_invocations_abort | apply timed_invocations_report]; reflexivity.
Qed.

(** A run of the notebooks in which the timed MCMC runs raise; in the
    transit notebook [az.from_numpyro] of a sampler that has not run
    raises too; every other evaluation returns. *)
Definition failing_eval (src : string) (w : World unit string) : string + unit :=
  if String.eqb src (run_call "sampler" quasar_args) then inl "run failed"%string
  else if String.eqb src (run_call "sampler_wn" transit_wn_args)
  then inl "run failed"%string
  else if String.eqb src "az.from_numpyro(sampler_wn)" then inl "no samples"%string
  else inr tt.

Definition start : World unit string := {| globals := ∅; trace := [] |}.

(** The quasar MCMC cell and the white-noise transit cell, run from
    [start] under either behaviour of [%time]. *)
Definition failing_quasar_fit (time_swallows : bool)
  : Py.outcome string unit * World unit string :=
  block unit string
    (quasar_mcmc unit string failing_eval (fun _ v => v) time_swallows) start.

Definition failing_transit_fit (time_swallows : bool)
  : Py.outcome string unit * World unit string :=
  block unit string
    (transit_white_noise unit string failing_eval (fun _ v => v) time_swallows) start.

(** C8.  Under a [%time] that swallows exceptions, [sampler.run] of the
    quasar notebook raises and the cell is not aborted: it completes
    without an error, the last events being the failed run and the
    traceback shown by the magic.  In the transit notebook the cell goes
    on after the failed [sampler_wn.run] to evaluate [az.from_numpyro]:
    the exception that ends the cell is not the sampler's.  Under a
    [%time] that lets exceptions through, both cells end with the
    sampler's exception, as the plain invocations do. *)
Lemma timed_failure_is_not_fatal :
  failing_eval (run_call "sampler" quasar_args)
    (snd (block unit string
            (take 5 (quasar_mcmc unit string failing_eval (fun _ v => v) true)) start))
  = inl "run failed"%string
  /\ fst (failing_quasar_fit true) = Returned tt
  /\ drop 5 (trace unit string (snd (failing_quasar_fit true))) =
     [Failed string (run_call "sampler" quasar_args) "run failed"%string;
      Traceback string "run failed"%string]
  /\ ~ aborts unit string failing_eval
         (quasar_mcmc unit string failing_eval (fun _ v => v) true) 5
         (run_call "sampler" quasar_args)
  /\ fst (failing_transit_fit true) = Raised "no samples"%string
  /\ drop 1 (trace unit string (snd (failing_transit_fit true))) =
     [Failed string (run_call "sampler_wn" transit_wn_args) "run failed"%string;
      Traceback string "run failed"%string;
      Failed string "az.from_numpyro(sampler_wn)"%string "no samples"%string]
  /\ fst (failing_quasar_fit false) = Raised "run failed"%string
  /\ fst (failing_transit_fit false) = Raised "run failed"%string.
Proof.
  split; [reflexivity|]. split; [vm_compute; reflexivity|].
  split; [vm_compute; reflexivity|]. split.
  { intros Habort.
    specialize (Habort start _ "run failed"%string eq_refl eq_refl).
    vm_compute in Habort. discriminate Habort. }
  split; [vm_compute; reflexivity|]. split; [vm_compute; reflexivity|].
  split; vm_compute; reflexivity.
Qed.

(** An optimizer that raises at the second grid value. *)
Definition failing_opt_run (p : Quasar.Params) : string + Quasar.Soln :=
  if Qeq_bool (Quasar.lag p) (1000 # 99)
  then inl "FloatingPointError"%string
  else inr (Quasar.newton_opt 400 p).

Lemma untimed_invocation_failures_witness :
  Quasar.linspace 0 1000 100
  = take 1 (Quasar.linspace 0 1000 100)
    ++ (0 + 1 * (1000 / 99)) :: drop 2 (Quasar.linspace 0 1000 100)
  /\ failing_opt_run (Quasar.start_at Quasar.Toy.jnp_log (0 + 1 * (1000 / 99)))
     = inl "FloatingPointError"%string
  /\ exists s,
       Quasar.grid_search string Quasar.Toy.jnp_log (Quasar.quadratic_loss 400)
         failing_opt_run ∅ = (Raised "FloatingPointError"%string, s)
       /\ length (Quasar.opt_calls s) = 2%nat
       /\ length (Quasar.lags s) = 1%nat.
Proof.
  assert (Hgrid : Quasar.linspace 0 1000 100
                  = take 1 (Quasar.linspace 0 1000 100)
                    ++ (0 + 1 * (1000 / 99)) :: drop 2 (Quasar.linspace 0 1000 100))
    by reflexivity.
  assert (Hret : Forall (Quasar.returns_at string Quasar.Toy.jnp_log failing_opt_run
                           (Quasar.newton_opt 400))
                        (take 1 (Quasar.linspace 0 1000 100)))
    by (repeat constructor).
  assert (Hraise : failing_opt_run
                     (Quasar.start_at Quasar.Toy.jnp_log (0 + 1 * (1000 / 99)))
                   = inl "FloatingPointError"%string) by reflexivity.
  split; [exact Hgrid|]. split; [exact Hraise|].
  destruct (untimed_invocation_failures unit string failing_eval (fun _ v => v)
              Quasar.Toy.jnp_log (Quasar.quadratic_loss 400) failing_opt_run
              (Quasar.newton_opt 400) ∅ _ _ _ _ Hgrid Hret Hraise)
    as (_ & (s & Hrun & Hcalls & Hlags & _)).
  exists s. split; [exact Hrun|].
  rewrite Hcalls, Hlags, !length_map. split; reflexivity.
Defined.

End Errors.

(** ** NumPyro models

    A model is run by the inference engine at a point of the latent
    space: every [numpyro.sample] site without [obs] takes its value from
    [latent], every site with [obs] takes the observation.  The run
    yields the trace of sites.  The target log-density of MCMC is the sum
    of the log-probabilities of the sample sites and of the factors;
    deterministic sites are recorded and do not enter it. *)

Module NumPyro.

Section Trace.

(** Values, distributions and numbers. *)
Variables V D N : Type.

Inductive site : Type :=
| SampleSite (name : string) (fn : D) (value : V) (is_observed : bool)
| FactorSite (name : string) (log_factor : N)
| DeterministicSite (name : string) (value : V).

Definition model (A : Type) : Type :=
  (string -> V) -> list site -> option (A * list site).

Definition ret {A} (a : A) : model A := fun _ tr => Some (a, tr).

Definition bind {A B} (m : model A) (f : A -> model B) : model B :=
  fun latent tr =>
    match m latent tr with
    | Some (a, tr') => f a latent tr'
    | None => None
    end.

(** A Python exception inside the model. *)
Definition fail {A} : model A := fun _ _ => None.

(** [numpyro.sample(name, fn, obs=obs)] *)
Definition sample (name : string) (fn : D) (obs : option V) : model V :=
  fun latent tr =>
    match obs with
    | Some v => Some (v, tr ++ [SampleSite name fn v true])
    | None => Some (latent name, tr ++ [SampleSite name fn (latent name) false])
    end.

(** [numpyro.factor(name, log_factor)] *)
Definition factor (name : string) (log_factor : N) : model unit :=
  fun _ tr => Some (tt, tr ++ [FactorSite name log_factor]).

(** [numpyro.deterministic(name, value)] *)
Definition deterministic (name : string) (value : V) : model unit :=
  fun _ tr => Some (tt, tr ++ [DeterministicSite name value]).

Definition run {A} (m : model A) (latent : string -> V) : option (list site) :=
  match m latent [] with
  | Some (_, tr) => Some tr
  | None => None
  end.

(** The sites that enter the target density. *)
Definition is_deterministic (s : site) : bool :=
  match s with DeterministicSite _ _ => true | _ => false end.

Definition density_sites (tr : list site) : list site :=
  List.filter (fun s => negb (is_deterministic s)) tr.

Variable log_prob : D -> V -> N.
Variable add : N -> N -> N.
Variable zero : N.

Definition site_log_density (s : site) : N :=
  match s with
  | SampleSite _ fn value _ => log_prob fn value
  | FactorSite _ log_factor => log_factor
  | DeterministicSite _ _ => zero
  end.

Definition log_density (tr : list site) : N :=
  fold_left (fun acc s => add acc (site_log_density s)) (density_sites tr) zero.

(** The names of the sampled parameters: sample sites without [obs]. *)
Definition latent_names (tr : list site) : list string :=
  flat_map (fun s => match s with
                     | SampleSite name _ _ false => [name]
                     | _ => []
                     end) tr.

Lemma log_density_sites tr tr' :
  density_sites tr = density_sites tr' -> log_density tr = log_density tr'.
Proof. unfold log_density. intros ->. reflexivity. Qed.

End Trace.

Arguments SampleSite {V D N} name fn value is_observed.
Arguments FactorSite {V D N} name log_factor.
Arguments DeterministicSite {V D N} name value.
Arguments ret {V D N A} a.
Arguments bind {V D N A B} m f.
Arguments fail {V D N A}.
Arguments sample {V D N} name fn obs.
Arguments factor {V D N} name log_factor.
Arguments deterministic {V D N} name value.
Arguments run {V D N A} m latent.
Arguments density_sites {V D N} tr.
Arguments log_density {V D N} log_prob add zero tr.
Arguments latent_names {V D N} tr.

Declare Scope numpyro_scope.
Delimit Scope numpyro_scope with numpyro.
Notation "x <- m ;; k" := (bind m (fun x => k))
  (at level 100, m at next level, right associativity) : numpyro_scope.
Notation "m ;; k" := (bind m (fun _ => k))
  (at level 100, right associativity) : numpyro_scope.

End NumPyro.

(** ** Kernel assessment: the model and its three kernel builders *)

Module AssessmentModel.
Import Jnp NumPyro.

Local Open Scope Q_scope.
Local Open Scope numpyro_scope.

(** tinygp kernels as the builders construct them: [sigma**2 * k]. *)
Inductive Kernel : Type :=
| ExpSquared (scale : Q)
| Matern32 (scale : Q)
| RationalQuadratic (scale alpha : Q)
| Scaled (c : Q) (k : Kernel).

(** The arguments of [GaussianProcess(kernel, X, diag=diag)]. *)
Record GaussianProcess : Type := {
  gp_kernel : Kernel;
  gp_X : list Q;
  gp_diag : Q
}.

Inductive distribution : Type :=
| HalfNormal (scale : Q)
| GPDist (gp : GaussianProcess).

Inductive value : Type :=
| Scalar (x : Q)
| Array (a : list Q).

Definition as_scalar (v : value) : Q :=
  match v with Scalar x => x | Array a => nth 0 a 0 end.

Definition yerr : Q := 25 # 100.

Section Model.

(** tinygp: [gp.condition(y, X_test, diag=diag)] returns the
    log-probability of [y] and the conditioned process;
    [gp.log_probability(y)]; [gp.loc], [gp.variance]; [jnp.sqrt]. *)
Variable condition : GaussianProcess -> list Q -> list Q -> Q -> Q * GaussianProcess.
Variable gp_log_probability : GaussianProcess -> list Q -> Q.
Variable gp_loc : GaussianProcess -> list Q.
Variable gp_variance : GaussianProcess -> list Q.
Variable jnp_sqrt : list Q -> list Q.
Variable log_prob : distribution -> value -> Q.

Definition M (A : Type) : Type := model value distribution Q A.

(** <<
    def build_exp_sq():
        sigma = numpyro.sample("sigma", dist.HalfNormal(10.0))
        rho = numpyro.sample("rho", dist.HalfNormal(5.0))
        return sigma**2 * kernels.ExpSquared(rho)
    >> *)
Definition build_exp_sq : M Kernel :=
  sigma <- sample "sigma" (HalfNormal 10) None ;;
  rho <- sample "rho" (HalfNormal 5) None ;;
  ret (Scaled (as_scalar sigma ^ 2) (ExpSquared (as_scalar rho))).

Definition build_matern : M Kernel :=
  sigma <- sample "sigma" (HalfNormal 10) None ;;
  rho <- sample "rho" (HalfNormal 5) None ;;
  ret (Scaled (as_scalar sigma ^ 2) (Matern32 (as_scalar rho))).

Definition build_raquad : M Kernel :=
  sigma <- sample "sigma" (HalfNormal 10) None ;;
  rho <- sample "rho" (HalfNormal 5) None ;;
  alpha <- sample "alpha" (HalfNormal 10) None ;;
  ret (Scaled (as_scalar sigma ^ 2)
              (RationalQuadratic (as_scalar rho) (as_scalar alpha))).

(** <<
    def model(kernel_builder, t_train, y_train, t_test=None, y_test=None, t_pred=None):
        gp = GaussianProcess(kernel_builder(), t_train, diag=yerr**2)
        if t_test is None:
            numpyro.sample("y_train", gp.numpyro_dist(), obs=y_train)
        else:
            log_prob_train, gp_cond = gp.condition(y_train, t_test, diag=yerr**2)
            log_prob_test = gp_cond.log_probability(y_test)
            numpyro.factor("log_prob_train", log_prob_train)
            numpyro.deterministic("log_prob_test", log_prob_test)

        if t_pred is not None:
            gp_pred = gp.condition(y_train, t_pred, diag=yerr**2).gp
            numpyro.deterministic("mean_pred", gp_pred.loc)
            numpyro.deterministic("std_pred", jnp.sqrt(gp_pred.variance))
    >>
    [gp_cond.log_probability(None)] raises. *)
Definition model (kernel_builder : M Kernel) (t_train y_train : list Q)
    (t_test y_test t_pred : option (list Q)) : M unit :=
  kernel <- kernel_builder ;;
  let gp := {| gp_kernel := kernel; gp_X := t_train; gp_diag := yerr ^ 2 |} in
  match t_test with
  | None =>
      _ <- sample "y_train" (GPDist gp) (Some (Array y_train)) ;; ret tt
  | Some t_test =>
      let '(log_prob_train, gp_cond) := condition gp y_train t_test (yerr ^ 2) in
      match y_test with
      | Some y_test =>
          let log_prob_test := gp_log_probability gp_cond y_test in
          factor "log_prob_train" log_prob_train ;;
          deterministic "log_prob_test" (Scalar log_prob_test)
      | None => fail
      end
  end ;;
  match t_pred with
  | Some t_pred =>
      let gp_pred := snd (condition gp y_train t_pred (yerr ^ 2)) in
      deterministic "mean_pred" (Array (gp_loc gp_pred)) ;;
      deterministic "std_pred" (Array (jnp_sqrt (gp_variance gp_pred)))
  | None => ret tt
  end.

(** <<
    sampler.run(jax.random.PRNGKey(0), t[mask_train], y[mask_train],
                t[~mask_train], y[~mask_train])
    >>
    the trace of the model at a point [latent] of the latent space. *)
Definition mcmc_trace (kernel_builder : M Kernel) (mask_train : list bool)
    (t y : list Q) (latent : string -> value)
  : option (list (site value distribution Q)) :=
  run (model kernel_builder
             (bool_index t mask_train) (bool_index y mask_train)
             (Some (bool_index t (invert mask_train)))
             (Some (bool_index y (invert mask_train))) None) latent.

Definition target (tr : option (list (site value distribution Q))) : option Q :=
  option_map (log_density log_prob Qplus 0) tr.

Definition kernel_builders : list (M Kernel) :=
  [build_exp_sq; build_matern; build_raquad].

(** The trace of a run with held-out data: the sites of the builder,
    the factor of the training likelihood, the deterministic held-out
    log-probability, and the prediction sites if asked for. *)
Definition prediction_sites (gp : GaussianProcess) (y_train : list Q)
    (t_pred : option (list Q)) : list (site value distribution Q) :=
  match t_pred with
  | Some t_pred =>
      let gp_pred := snd (condition gp y_train t_pred (yerr ^ 2)) in
      [DeterministicSite "mean_pred" (Array (gp_loc gp_pred));
       DeterministicSite "std_pred" (Array (jnp_sqrt (gp_variance gp_pred)))]
  | None => []
  end.

Lemma run_model_held_out (kb : M Kernel) latent kernel tr0
    t_train y_train t_test y_test t_pred :
  kb latent [] = Some (kernel, tr0) ->
  let gp := {| gp_kernel := kernel; gp_X := t_train; gp_diag := yerr ^ 2 |} in
  run (model kb t_train y_train (Some t_test) (Some y_test) t_pred) latent
  = Some (tr0
          ++ [FactorSite "log_prob_train" (fst (condition gp y_train t_test (yerr ^ 2)))]
          ++ [DeterministicSite "log_prob_test"
                (Scalar (gp_log_probability
                           (snd (condition gp y_train t_test (yerr ^ 2))) y_test))]
          ++ prediction_sites gp y_train t_pred).
Proof.
  intros Hkb gp. unfold run, model, bind. rewrite Hkb. fold gp.
  destruct (condition gp y_train t_test (yerr ^ 2)) as [lp gc]. simpl.
  unfold factor, deterministic, prediction_sites.
  destruct t_pred as [tp|]; simpl; rewrite <- ?app_assoc; reflexivity.
Qed.

Lemma kernel_builders_return (kb : M Kernel) latent :
  kb ∈ kernel_builders -> exists kernel tr0, kb latent [] = Some (kernel, tr0).
Proof.
  unfold kernel_builders. rewrite !elem_of_cons, elem_of_nil.
  intros [-> | [-> | [-> | []]]]; eexists _, _; reflexivity.
Qed.

Lemma density_sites_app (tr1 tr2 : list (site value distribution Q)) :
  density_sites (tr1 ++ tr2) = density_sites tr1 ++ density_sites tr2.
Proof. unfold density_sites. apply List.filter_app. Qed.

(** C5.  For each of the three kernel builders, at every point of the
    latent space, two runs of the model that differ only in the held-out
    values [y_test] both succeed, have the same sites in the target
    density and hence the same target log-density, and their traces
    differ at most at the deterministic site "log_prob_test"; so for the
    call [sampler.run(key, t[mask_train], y[mask_train], t[~mask_train],
    y[~mask_train])] two data sets with the same training values have
    the same target. *)
Theorem held_out_values_do_not_reach_target
    (kb : M Kernel) latent mask (t y y' : list Q)
    t_train y_train t_test y_test y_test' t_pred :
  kb ∈ kernel_builders ->
  bool_index y mask = bool_index y' mask ->
  (exists tr tr',
      run (model kb t_train y_train (Some t_test) (Some y_test) t_pred) latent = Some tr
      /\ run (model kb t_train y_train (Some t_test) (Some y_test') t_pred) latent = Some tr'
      /\ density_sites tr = density_sites tr'
      /\ log_density log_prob Qplus 0 tr = log_density log_prob Qplus 0 tr'
      /\ forall i, tr !! i <> tr' !! i ->
           exists v v', tr !! i = Some (DeterministicSite "log_prob_test" v)
                        /\ tr' !! i = Some (DeterministicSite "log_prob_test" v'))
  /\ (exists q, target (mcmc_trace kb mask t y latent) = Some q
                /\ target (mcmc_trace kb mask t y' latent) = Some q).
Proof.
  intros Hkb Htrain.
  destruct (kernel_builders_return kb latent Hkb) as (kernel & tr0 & Hrun).
  split.
  - pose proof (run_model_held_out kb latent kernel tr0 t_train y_train
                  t_test y_test t_pred Hrun) as H1.
    pose proof (run_model_held_out kb latent kernel tr0 t_train y_train
                  t_test y_test' t_pred Hrun) as H2.
    cbv zeta in H1, H2.
    eexists _, _. split; [exact H1|]. split; [exact H2|].
    split; [rewrite !density_sites_app; reflexivity|].
    split; [apply log_density_sites; rewrite !density_sites_app; reflexivity|].
    intros i Hne.
    destruct (decide (i = length tr0 + 1)%nat) as [-> | Hi].
    + eexists _, _. split.
      * rewrite lookup_app_r by lia. replace (length tr0 + 1 - length tr0)%nat with 1%nat by lia.
        reflexivity.
      * rewrite lookup_app_r by lia. replace (length tr0 + 1 - length tr0)%nat with 1%nat by lia.
        reflexivity.
    + exfalso. apply Hne. clear Hne.
      destruct (decide (i < length tr0)%nat) as [Hlt | Hge].
      * rewrite !lookup_app_l by exact Hlt. reflexivity.
      * rewrite !(lookup_app_r tr0) by lia.
        destruct (i - length tr0)%nat as [|[|k]] eqn:Hk; [reflexivity | lia | reflexivity].
  - unfold mcmc_trace, target. rewrite <- Htrain.
    rewrite !(run_model_held_out _ _ _ _ _ _ _ _ _ Hrun). simpl option_map.
    eexists. split; [reflexivity|]. f_equal.
    apply log_density_sites. rewrite !density_sites_app. reflexivity.
Qed.

End Model.

(** Stand-ins for the library side, to run the model. *)
Module Toy.

Definition total (a : list Q) : Q := foldr Qplus 0 a.
Definition condition (gp : GaussianProcess) (y X_test : list Q) (diag : Q)
  : Q * GaussianProcess :=
  (- total y, {| gp_kernel := gp_kernel gp; gp_X := X_test; gp_diag := diag |}).
Definition gp_log_probability (gp : GaussianProcess) (y : list Q) : Q := - total y.
Definition gp_loc (gp : GaussianProcess) : list Q := gp_X gp.
Definition gp_variance (gp : GaussianProcess) : list Q := map (fun _ => gp_diag gp) (gp_X gp).
Definition jnp_sqrt (a : list Q) : list Q := a.
Definition log_prob (fn : distribution) (v : value) : Q :=
  match fn with
  | HalfNormal scale => - (as_scalar v / scale)
  | GPDist gp => match v with Array a => gp_log_probability gp a | Scalar x => - x end
  end.
Definition latent (name : string) : value := Scalar 2.

Definition mask : list bool := [true; false; true; true; false].
Definition t : list Q := [1; 2; 3; 4; 5].
Definition y : list Q := [10; 20; 30; 40; 50].
Definition y' : list Q := [10; 21; 30; 40; 49].

End Toy.

Example toy_trace :
  mcmc_trace Toy.condition Toy.gp_log_probability Toy.gp_loc Toy.gp_variance
    Toy.jnp_sqrt build_matern Toy.mask Toy.t Toy.y Toy.latent
  = Some [SampleSite "sigma" (HalfNormal 10) (Scalar 2) false;
          SampleSite "rho" (HalfNormal 5) (Scalar 2) false;
          FactorSite "log_prob_train" (- (10 + (30 + (40 + 0))));
          DeterministicSite "log_prob_test" (Scalar (- (20 + (50 + 0))))].
Proof. reflexivity. Qed.

Example toy_latent_names :
  option_map latent_names
    (mcmc_trace Toy.condition Toy.gp_log_probability Toy.gp_loc Toy.gp_variance
       Toy.jnp_sqrt build_raquad Toy.mask Toy.t Toy.y Toy.latent)
  = Some ["sigma"; "rho"; "alpha"]%string.
Proof. reflexivity. Qed.

Lemma held_out_values_do_not_reach_target_witness :
  build_matern ∈ kernel_builders
  /\ bool_index Toy.y Toy.mask = bool_index Toy.y' Toy.mask
  /\ exists q,
       target Toy.log_prob
         (mcmc_trace Toy.condition Toy.gp_log_probability Toy.gp_loc
            Toy.gp_variance Toy.jnp_sqrt build_matern Toy.mask Toy.t Toy.y Toy.latent)
       = Some q
       /\ target Toy.log_prob
            (mcmc_trace Toy.condition Toy.gp_log_probability Toy.gp_loc
               Toy.gp_variance Toy.jnp_sqrt build_matern Toy.mask Toy.t Toy.y' Toy.latent)
          = Some q.
Proof.
  assert (Hkb : build_matern ∈ kernel_builders)
    by (unfold kernel_builders; rewrite !elem_of_cons; right; left; reflexivity).
  split; [exact Hkb|]. split; [reflexivity|].
  exact (proj2 (held_out_values_do_not_reach_target
                  Toy.condition Toy.gp_log_probability Toy.gp_loc Toy.gp_variance
                  Toy.jnp_sqrt Toy.log_prob build_matern Toy.latent Toy.mask
                  Toy.t Toy.y Toy.y' [1] [10] [2] [20] [21] None Hkb eq_refl)).
Defined.

End AssessmentModel.

(** ** Transit: the light curve, [build_gp] and the model *)

Module Transit.
Import NumPyro.

Local Open Scope R_scope.
Local Open Scope numpyro_scope.

(** The dictionary [params]: the six keys of the literal in [model] and
    the two keys added when the GP is used. *)
Record Params : Type := {
  log_f0 : R;
  u : R * R;
  log_duration : R;
  t0 : R;
  b : R;
  log_r : R;
  log_amp : option R;
  log_ell : option R
}.

(** exo4jax: the arguments of [QuadLightCurve.init] and
    [TransitOrbit.init]. *)
Record QuadLightCurve : Type := { u1 : R; u2 : R }.

Record TransitOrbit : Type := {
  period : R;
  duration : R;
  time_transit : R;
  impact_param : R;
  radius : R
}.

Inductive Kernel : Type :=
| Matern32 (scale : R)
| Scaled (c : R) (k : Kernel).

(** The arguments of [GaussianProcess(kernel, t, diag=diag, mean=mean)]. *)
Record GaussianProcess : Type := {
  gp_kernel : Kernel;
  gp_t : list R;
  gp_diag : R;
  gp_mean : list R -> list R
}.

Inductive value : Type :=
| Scalar (x : R)
| Pair (x : R * R)
| Array (a : list R).

Definition as_scalar (v : value) : R :=
  match v with Scalar x => x | Pair x => fst x | Array a => nth 0 a 0 end.

Definition as_pair (v : value) : R * R :=
  match v with
  | Pair x => x
  | Scalar x => (x, x)
  | Array a => (nth 0 a 0, nth 1 a 0)
  end.

Inductive distribution : Type :=
| Normal (loc : value) (scale : R)
| QuadLDParams
| GPDist (gp : GaussianProcess).

Section Model.

(** [lc.light_curve(orbit, t)[0]] of exo4jax, the predictive mean of
    [gp.condition(y, t_grid, include_mean=False).gp.loc] of tinygp, and
    the global [t_grid]. *)
Variable lc_light_curve : QuadLightCurve -> TransitOrbit -> list R -> list R.
Variable gp_condition_loc : GaussianProcess -> list R -> list R -> list R.
Variable t_grid : list R.

Definition M (A : Type) : Type := model value distribution R A.

Definition orbit_of (params : Params) (period_ : R) : TransitOrbit :=
  {| period := period_;
     duration := exp (log_duration params);
     time_transit := t0 params;
     impact_param := b params;
     radius := exp (log_r params) |}.

(** <<
    def light_curve(params, t, period=1.0):
        lc = QuadLightCurve.init(u1=params["u"][0], u2=params["u"][1])
        orbit = TransitOrbit.init(period=period, duration=jnp.exp(params["log_duration"]),
                                  time_transit=params["t0"], impact_param=params["b"],
                                  radius=jnp.exp(params["log_r"]))
        return jnp.exp(params["log_f0"]) * (1 + lc.light_curve(orbit, t)[0])
    >> *)
Definition light_curve (params : Params) (t : list R) : list R :=
  let lc := {| u1 := fst (u params); u2 := snd (u params) |} in
  let orbit := orbit_of params 1 in
  map (fun f => exp (log_f0 params) * (1 + f)) (lc_light_curve lc orbit t).

(** <<
    def build_gp(params, t, diag):
        kernel = jnp.exp(2 * params["log_amp"]) * kernels.quasisep.Matern32(
            jnp.exp(params["log_ell"]))
        return GaussianProcess(kernel, t, diag=diag, mean=partial(light_curve, params))
    >>
    A missing key raises [KeyError]. *)
Definition build_gp (params : Params) (t : list R) (diag : R) : option GaussianProcess :=
  match log_amp params, log_ell params with
  | Some log_amp_, Some log_ell_ =>
      let kernel := Scaled (exp (2 * log_amp_)) (Matern32 (exp log_ell_)) in
      Some {| gp_kernel := kernel; gp_t := t; gp_diag := diag;
              gp_mean := light_curve params |}
  | _, _ => None
  end.

(** The dictionary literal of [model]. *)
Definition params_literal (log_f0_ : R) (u_ : R * R) (t0_ log_r_ : R) : Params :=
  {| log_f0 := log_f0_;
     u := u_;
     log_duration := ln 0.12;
     t0 := t0_;
     b := 0.1;
     log_r := log_r_;
     log_amp := None;
     log_ell := None |}.

Definition set_log_amp (v : R) (p : Params) : Params :=
  {| log_f0 := log_f0 p; u := u p; log_duration := log_duration p; t0 := t0 p;
     b := b p; log_r := log_r p; log_amp := Some v; log_ell := log_ell p |}.

Definition set_log_ell (v : R) (p : Params) : Params :=
  {| log_f0 := log_f0 p; u := u p; log_duration := log_duration p; t0 := t0 p;
     b := b p; log_r := log_r p; log_amp := log_amp p; log_ell := Some v |}.

(** <<
    def model(t, y_err, y=None, use_gp=True):
        log_jitter = numpyro.sample("log_jitter", dist.Normal(jnp.log(y_err), 1.0))
        log_f0 = numpyro.sample("log_f0", dist.Normal(0.0, 0.01))
        u = numpyro.sample("u", distx.QuadLDParams())
        t0 = numpyro.sample("t0", dist.Normal(0.0, 0.1))
        log_r = numpyro.sample("log_r", dist.Normal(jnp.log(0.1), 2.0))
        numpyro.deterministic("r", jnp.exp(log_r))
        params = {"log_f0": log_f0, "u": u, "log_duration": jnp.log(0.12),
                  "t0": t0, "b": 0.1, "log_r": log_r}
        if use_gp:
            params["log_amp"] = numpyro.sample("log_amp", dist.Normal(0.0, 2.0))
            params["log_ell"] = numpyro.sample("log_ell", dist.Normal(0.0, 2.0))
            gp = build_gp(params, t, diag=y_err**2 + jnp.exp(2 * log_jitter))
            numpyro.sample("y", gp.numpyro_dist(), obs=y)
            mu = gp.mean_function(t_grid)
            numpyro.deterministic("mu", mu)
            numpyro.deterministic("gp", gp.condition(y, t_grid, include_mean=False).gp.loc)
        else:
            numpyro.sample("y", dist.Normal(light_curve(params, t),
                                            jnp.sqrt(y_err**2 + jnp.exp(2 * log_jitter))),
                           obs=y)
            numpyro.deterministic("mu", light_curve(params, t_grid))
    >>
    [gp.condition(None, ...)] raises. *)
Definition model (t : list R) (y_err : R) (y : option (list R)) (use_gp : bool)
  : M unit :=
  log_jitter <- sample "log_jitter" (Normal (Scalar (ln y_err)) 1) None ;;
  log_f0_ <- sample "log_f0" (Normal (Scalar 0) 0.01) None ;;
  u_ <- sample "u" QuadLDParams None ;;
  t0_ <- sample "t0" (Normal (Scalar 0) 0.1) None ;;
  log_r_ <- sample "log_r" (Normal (Scalar (ln 0.1)) 2) None ;;
  deterministic "r" (Scalar (exp (as_scalar log_r_))) ;;
  let params := params_literal (as_scalar log_f0_) (as_pair u_)
                               (as_scalar t0_) (as_scalar log_r_) in
  if use_gp then
    log_amp_ <- sample "log_amp" (Normal (Scalar 0) 2) None ;;
    let params := set_log_amp (as_scalar log_amp_) params in
    log_ell_ <- sample "log_ell" (Normal (Scalar 0) 2) None ;;
    let params := set_log_ell (as_scalar log_ell_) params in
    match build_gp params t (y_err ^ 2 + exp (2 * as_scalar log_jitter)) with
    | None => fail
    | Some gp =>
        _ <- sample "y" (GPDist gp) (option_map Array y) ;;
        let mu := gp_mean gp t_grid in
        deterministic "mu" (Array mu) ;;
        match y with
        | Some y_ => deterministic "gp" (Array (gp_condition_loc gp y_ t_grid))
        | None => fail
        end
    end
  else
    _ <- sample "y" (Normal (Array (light_curve params t))
                            (sqrt (y_err ^ 2 + exp (2 * as_scalar log_jitter))))
                (option_map Array y) ;;
    deterministic "mu" (Array (light_curve params t_grid)).

(** The variance of one observation under a distribution of "y". *)
Definition point_variance (fn : distribution) : R :=
  match fn with
  | Normal _ scale => scale ^ 2
  | GPDist gp => gp_diag gp
  | QuadLDParams => 0
  end.

(** The mean of the observations under a distribution of "y". *)
Definition mean_at (fn : distribution) (t : list R) : list R :=
  match fn with
  | Normal (Array loc) _ => loc
  | GPDist gp => gp_mean gp t
  | _ => []
  end.

(** The distribution of the sample site [name] of a trace. *)
Definition site_fn (name : string) (tr : list (site value distribution R))
  : option distribution :=
  head (flat_map (fun s => match s with
                           | SampleSite n fn _ _ => if String.eqb n name then [fn] else []
                           | _ => []
                           end) tr).

Lemma light_curve_ignores_gp_keys params a e t :
  light_curve (set_log_ell e (set_log_amp a params)) t = light_curve params t.
Proof. reflexivity. Qed.

Lemma variance_nonneg y_err log_jitter : 0 <= y_err ^ 2 + exp (2 * log_jitter).
Proof.
  pose proof (pow2_ge_0 y_err). pose proof (exp_pos (2 * log_jitter)). lra.
Qed.

(** C10.  At every point of the latent space and for all data, the fit
    without the GP samples exactly log_jitter, log_f0, u, t0 and log_r,
    and the fit with the GP these and log_amp, log_ell; neither samples
    the duration or the impact parameter: the orbit of the mean has
    duration 0.12 and impact parameter 0.1 in both; the observations "y"
    have the same mean, the light curve of the same parameters, and the
    same per-point variance [y_err^2 + exp(2 * log_jitter)] in both. *)
Theorem transit_fits_share_mean_and_variance latent (t : list R) (y_err : R) (y : list R) :
  let log_jitter := as_scalar (latent "log_jitter"%string) in
  let params := params_literal (as_scalar (latent "log_f0"%string))
                               (as_pair (latent "u"%string))
                               (as_scalar (latent "t0"%string))
                               (as_scalar (latent "log_r"%string)) in
  let variance := y_err ^ 2 + exp (2 * log_jitter) in
  exists tr_wn tr_gp fn_wn fn_gp,
    run (model t y_err (Some y) false) latent = Some tr_wn
    /\ run (model t y_err (Some y) true) latent = Some tr_gp
    /\ latent_names tr_wn = ["log_jitter"; "log_f0"; "u"; "t0"; "log_r"]%string
    /\ latent_names tr_gp
       = ["log_jitter"; "log_f0"; "u"; "t0"; "log_r"; "log_amp"; "log_ell"]%string
    /\ site_fn "y" tr_wn = Some fn_wn
    /\ site_fn "y" tr_gp = Some fn_gp
    /\ (forall t', mean_at fn_gp t' = light_curve params t')
    /\ mean_at fn_wn t = light_curve params t
    /\ point_variance fn_wn = variance
    /\ point_variance fn_gp = variance
    /\ duration (orbit_of params 1) = 0.12
    /\ impact_param (orbit_of params 1) = 0.1.
Proof.
  intros log_jitter params variance.
  eexists _, _, _, _.
  split; [reflexivity|]. split; [reflexivity|].
  split; [reflexivity|]. split; [reflexivity|].
  split; [reflexivity|]. split; [reflexivity|].
  split; [intros t'; reflexivity|]. split; [reflexivity|].
  split; [|split; [reflexivity|split]].
  - simpl point_variance. apply pow2_sqrt, variance_nonneg.
  - simpl. apply exp_ln. lra.
  - reflexivity.
Qed.

End Model.

End Transit.

(** ** Kernel assessment: the simulated times and the shape of the split *)

Module AssessmentData.
Import Jnp Assessment.

(** [jnp.sort(a)]. *)
Definition sort (a : list Q) : list Q := gather 0%Q a (argsort a).

Lemma bool_index_sublist {A} (a : list A) mask : bool_index a mask `sublist_of` a.
Proof.
  revert mask. induction a as [|x a IH]; intros [|b mask]; simpl;
    try apply sublist_nil_l.
  destruct b; [apply sublist_skip | apply sublist_cons]; apply IH.
Qed.

Lemma elem_of_bool_index {A} (a : list A) mask x :
  x ∈ bool_index a mask -> exists i, a !! i = Some x /\ mask !! i = Some true.
Proof.
  revert mask. induction a as [|y a IH]; intros [|b mask]; simpl;
    try (intros H; apply elem_of_nil in H; contradiction).
  destruct b.
  - rewrite elem_of_cons. intros [-> | H]; [exists 0; split; reflexivity|].
    destruct (IH _ H) as (i & Ha & Hm). exists (S i). split; assumption.
  - intros H. destruct (IH _ H) as (i & Ha & Hm). exists (S i). split; assumption.
Qed.

Lemma sorted_lookup_le (l : list Q) i j a b :
  Sorted Qle l -> i <= j -> l !! i = Some a -> l !! j = Some b -> (a <= b)%Q.
Proof.
  intros Hs. apply (Sorted.Sorted_StronglySorted Qle_trans) in Hs.
  revert i j. induction Hs as [|x l Hs IH Hall]; intros i j Hij Hi Hj;
    [rewrite lookup_nil in Hi; discriminate|].
  destruct i as [|i], j as [|j]; simpl in *; try lia.
  - injection Hi as <-. injection Hj as <-. apply Qle_refl.
  - injection Hi as <-. rewrite List.Forall_forall in Hall. apply Hall.
    apply list_elem_of_In, list_elem_of_lookup. eauto.
  - apply (IH i j); [lia | assumption | assumption].
Qed.

Lemma sorted_sublist (l k : list Q) :
  l `sublist_of` k -> Sorted Qle k -> Sorted Qle l.
Proof.
  intros Hsub Hs. apply (Sorted.Sorted_StronglySorted Qle_trans) in Hs.
  apply StronglySorted_Sorted.
  induction Hsub as [|x l k Hsub IH|x l k Hsub IH]; [constructor| |].
  - inversion Hs as [|? ? Hs' Hall]; subst. constructor; [apply IH, Hs'|].
    rewrite List.Forall_forall in *. intros y Hy. apply Hall.
    apply list_elem_of_In. eapply elem_of_sublist; [|exact Hsub].
    apply list_elem_of_In, Hy.
  - inversion Hs; subst. apply IH. assumption.
Qed.

Section Simulation.

Variable Key : Type.
(** [jax.random.uniform(key, (n,))] and
    [jax.random.uniform(key, (n,), minval=lo, maxval=hi)]. *)
Variable random_uniform : Key -> nat -> list Q.
Variable random_uniform_in : Key -> nat -> Q -> Q -> list Q.
Hypothesis random_uniform_shape :
  forall key n, length (random_uniform key n) = n.
Hypothesis random_uniform_in_shape :
  forall key n lo hi, length (random_uniform_in key n lo hi) = n.

(** <<
    t = jnp.sort(jax.random.uniform(key_t, (N,), minval=0.0, maxval=10.0))
    >> *)
Definition simulate_times (key_t : Key) (N : nat) : list Q :=
  sort (random_uniform_in key_t N 0 10).

Lemma slice_stop_boundary N : slice_stop N (Some boundary) = Nat.min 10 N.
Proof.
  unfold slice_stop, slice_bound, boundary.
  change (10 <? 0)%Z with false; cbv iota; lia.
Qed.

Lemma slice_start_boundary N : slice_start N (Some (- boundary)%Z) = N - 10.
Proof.
  unfold slice_start, slice_bound, boundary.
  change (- (10) <? 0)%Z with true; cbv iota; lia.
Qed.

(** X1.  The mask entry by entry: [False] on the first 10 and the last 10
    positions, and the outcome of the draw's comparison with 0.7
    everywhere else. *)
Theorem mask_train_lookup key N i u :
  random_uniform key N !! i = Some u ->
  mask_train Key random_uniform key N !! i
  = Some (if (i <? 10) || (N - 10 <=? i) then false else Qltb u split_fraction).
Proof using random_uniform_shape.
  intros Hu. unfold mask_train.
  set (m0 := map _ (random_uniform key N)).
  assert (Hl0 : length m0 = N)
    by (unfold m0; rewrite length_map; apply random_uniform_shape).
  assert (Hi : i < N) by (apply lookup_lt_Some in Hu; rewrite random_uniform_shape in Hu; exact Hu).
  assert (Hm0 : m0 !! i = Some (Qltb u split_fraction))
    by (unfold m0; rewrite list_lookup_fmap, Hu; reflexivity).
  pose proof (lookup_at_slice_set None (Some boundary) false m0 i _ Hm0) as H1.
  erewrite lookup_at_slice_set by exact H1.
  rewrite length_at_slice_set, Hl0, slice_stop_boundary, slice_start_boundary.
  f_equal. change (slice_start N None) with 0. change (slice_stop N None) with N.
  destruct (i <? 10) eqn:H10, (N - 10 <=? i) eqn:Hhi, (i <? N) eqn:HN,
           (i <? Nat.min 10 N) eqn:Hmin; simpl; try reflexivity;
    repeat match goal with
           | H : (_ <? _) = true |- _ => apply Nat.ltb_lt in H
           | H : (_ <? _) = false |- _ => apply Nat.ltb_ge in H
           | H : (_ <=? _) = true |- _ => apply Nat.leb_le in H
           | H : (_ <=? _) = false |- _ => apply Nat.leb_gt in H
           end; lia.
Qed.

Lemma train_indices_interior key N i :
  i ∈ train_indices Key random_uniform key N -> 10 <= i < N - 10.
Proof using random_uniform_shape.
  intros Hin.
  apply (elem_of_train_indices Key random_uniform random_uniform_shape) in Hin.
  pose proof (lookup_lt_Some _ _ _ Hin) as Hlt.
  rewrite (length_mask_train Key random_uniform random_uniform_shape) in Hlt.
  destruct (decide (i < 10 \/ N - 10 <= i)) as [Hb | Hb]; [|lia].
  rewrite (mask_train_boundary Key random_uniform random_uniform_shape key N i Hlt Hb)
    in Hin. discriminate.
Qed.

(** X2.  The boundary exclusion bounds the training set: training indices
    lie in [10, N - 10), so there are at most [N - 20] training points
    and at least [min N 20] held-out points; with [N <= 20] the training
    set is empty. *)
Theorem mask_train_sizes key N :
  (forall i, i ∈ train_indices Key random_uniform key N -> 10 <= i < N - 10)
  /\ count_true (mask_train Key random_uniform key N) <= N - 20
  /\ Nat.min N 20 <= length (held_out_indices Key random_uniform key N)
  /\ (N <= 20 -> train_indices Key random_uniform key N = []).
Proof using random_uniform_shape.
  pose proof (length_mask_train Key random_uniform random_uniform_shape key N) as Hm.
  assert (Htr : length (train_indices Key random_uniform key N)
                = count_true (mask_train Key random_uniform key N)).
  { unfold train_indices. apply length_bool_index.
    unfold arange. rewrite length_seq, Hm. reflexivity. }
  assert (Hle : length (train_indices Key random_uniform key N) <= N - 20).
  { replace (N - 20) with (length (seq 10 (N - 20))) by apply length_seq.
    apply submseteq_length, NoDup_submseteq.
    - eapply sublist_NoDup; [apply NoDup_seq | apply bool_index_sublist].
    - intros i Hi. apply train_indices_interior in Hi. apply elem_of_seq. lia. }
  split; [intros i; apply train_indices_interior|].
  split; [rewrite <- Htr; exact Hle|]. split.
  - unfold held_out_indices. rewrite length_bool_index, count_true_invert.
    + rewrite Hm, <- Htr. lia.
    + unfold arange, invert. rewrite length_seq, length_map, Hm. reflexivity.
  - intros HN. apply length_zero_iff_nil. lia.
Qed.

(** X3.  The times are sorted, so are the training and the held-out times,
    and with [N >= 20] every training time lies between the tenth and the
    tenth-from-last time, which are both held out. *)
Theorem training_times_bracketed key_t key_split N :
  let t := simulate_times key_t N in
  let mask := mask_train Key random_uniform key_split N in
  Sorted Qle t
  /\ Permutation t (random_uniform_in key_t N 0 10)
  /\ Sorted Qle (bool_index t mask)
  /\ Sorted Qle (bool_index t (invert mask))
  /\ (20 <= N ->
      exists lo hi,
        t !! 9 = Some lo /\ t !! (N - 10) = Some hi
        /\ mask !! 9 = Some false /\ mask !! (N - 10) = Some false
        /\ forall x, x ∈ bool_index t mask -> (lo <= x <= hi)%Q).
Proof using random_uniform_shape random_uniform_in_shape.
  intros t mask.
  assert (Hs : Sorted Qle t) by apply gather_argsort_sorted.
  assert (Hp : Permutation t (random_uniform_in key_t N 0 10))
    by (apply gather_perm, argsort_perm).
  assert (Hlt : length t = N)
    by (rewrite (Permutation_length Hp); apply random_uniform_in_shape).
  split; [exact Hs|]. split; [exact Hp|].
  split; [eapply sorted_sublist; [apply bool_index_sublist | exact Hs]|].
  split; [eapply sorted_sublist; [apply bool_index_sublist | exact Hs]|].
  intros HN.
  destruct (lookup_lt_is_Some_2 t 9 ltac:(lia)) as [lo Hlo].
  destruct (lookup_lt_is_Some_2 t (N - 10) ltac:(lia)) as [hi Hhi].
  exists lo, hi. split; [exact Hlo|]. split; [exact Hhi|].
  split; [apply mask_train_boundary; [exact random_uniform_shape | lia | lia]|].
  split; [apply mask_train_boundary; [exact random_uniform_shape | lia | lia]|].
  intros x Hx. destruct (elem_of_bool_index _ _ _ Hx) as (i & Hti & Hmi).
  assert (Hi : 10 <= i < N - 10).
  { apply (train_indices_interior key_split N).
    apply (elem_of_train_indices Key random_uniform random_uniform_shape). exact Hmi. }
  split; [apply (sorted_lookup_le t 9 i) | apply (sorted_lookup_le t i (N - 10))];
    try assumption; lia.
Qed.

End Simulation.

Definition demo_uniform_in (key n : nat) (lo hi : Q) : list Q :=
  map (fun u => lo + u * (hi - lo))%Q (demo_uniform (key + 1) n).

Lemma demo_uniform_shape key n : length (demo_uniform key n) = n.
Proof. unfold demo_uniform. rewrite length_map. apply length_seq. Qed.

Lemma demo_uniform_in_shape key n lo hi : length (demo_uniform_in key n lo hi) = n.
Proof. unfold demo_uniform_in. rewrite length_map. apply demo_uniform_shape. Qed.

Example demo_times_head :
  map Qred (take 4 (simulate_times nat demo_uniform_in 100 24))
  = [1 # 10; 2 # 5; 4 # 5; 6 # 5].
Proof. vm_compute. reflexivity. Qed.

Lemma mask_train_lookup_witness :
  demo_uniform 100 120 !! 11 = Some (7 # 100)
  /\ mask_train nat demo_uniform 100 120 !! 11 = Some true.
Proof.
  split; [reflexivity|].
  exact (mask_train_lookup nat demo_uniform demo_uniform_shape 100 120 11 (7 # 100)
           eq_refl).
Defined.

Lemma mask_train_sizes_witness :
  (forall key n, length (demo_uniform key n) = n)
  /\ count_true (mask_train nat demo_uniform 100 120) <= 100
  /\ 20 <= length (held_out_indices nat demo_uniform 100 120)
  /\ train_indices nat demo_uniform 100 20 = [].
Proof.
  split; [exact demo_uniform_shape|].
  destruct (mask_train_sizes nat demo_uniform demo_uniform_shape 100 120)
    as (_ & Hc & Hh & _).
  destruct (mask_train_sizes nat demo_uniform demo_uniform_shape 100 20)
    as (_ & _ & _ & Hsmall).
  split; [exact Hc|]. split; [exact Hh|]. apply Hsmall. lia.
Defined.

Lemma training_times_bracketed_witness :
  (forall key n lo hi, length (demo_uniform_in key n lo hi) = n)
  /\ 20 <= 24
  /\ Sorted Qle (simulate_times nat demo_uniform_in 100 24)
  /\ exists lo hi,
       simulate_times nat demo_uniform_in 100 24 !! 9 = Some lo
       /\ simulate_times nat demo_uniform_in 100 24 !! 14 = Some hi
       /\ forall x,
            x ∈ bool_index (simulate_times nat demo_uniform_in 100 24)
                  (mask_train nat demo_uniform 7 24) ->
            (lo <= x <= hi)%Q.
Proof.
  split; [exact demo_uniform_in_shape|]. split; [lia|].
  destruct (training_times_bracketed nat demo_uniform demo_uniform_in
              demo_uniform_shape demo_uniform_in_shape 100 7 24)
    as (Hs & _ & _ & _ & Hb).
  split; [exact Hs|].
  destruct (Hb ltac:(lia)) as (lo & hi & Hlo & Hhi & _ & _ & Hx).
  exists lo, hi. split; [exact Hlo|]. split; [exact Hhi | exact Hx].
Defined.

End AssessmentData.

(** ** Quasar time delay: the data set, the simulation buffer and the
    prediction grid *)

From Stdlib Require Import Qminmax.

Module QuasarData.
Import Jnp Quasar.

Local Open Scope Q_scope.

(** The columns of [quasar.csv] that the notebook reads. *)
Record Table : Type := {
  jd : list Q;
  a_mag : list Q;
  a_mag_err : list Q;
  b_mag : list Q;
  b_mag_err : list Q
}.

(** Every column of a table has one entry per row. *)
Definition aligned (data : Table) : Prop :=
  length (a_mag data) = length (jd data)
  /\ length (a_mag_err data) = length (jd data)
  /\ length (b_mag data) = length (jd data)
  /\ length (b_mag_err data) = length (jd data).

(** <<
    N = len(data)
    X = jnp.concatenate((data["jd"].value, data["jd"].value)), jnp.concatenate(
        (jnp.zeros(N, dtype=int), jnp.ones(N, dtype=int)))
    y = jnp.concatenate((data["a_mag"].value, data["b_mag"].value))
    diag = jnp.concatenate((data["a_mag_err"].value, data["b_mag_err"].value)) ** 2
    >> *)
Definition len (data : Table) : nat := length (jd data).

Definition dataset_X (data : Table) : Coords :=
  let N := len data in
  (jd data ++ jd data, repeat 0%Z N ++ repeat 1%Z N).

Definition dataset_y (data : Table) : list Q := a_mag data ++ b_mag data.

Definition dataset_diag (data : Table) : list Q :=
  map (fun e => e ^ 2) (a_mag_err data ++ b_mag_err data).

(** [a.min()] and [a.max()]; both raise on an empty array. *)
Definition array_min (a : list Q) : option Q :=
  match a with
  | [] => None
  | x :: a' => Some (fold_left Qmin a' x)
  end.

Definition array_max (a : list Q) : option Q :=
  match a with
  | [] => None
  | x :: a' => Some (fold_left Qmax a' x)
  end.

(** <<
    t_lagged = X[0] - minimum[1]["lag"] * X[1]
    t_grid = jnp.linspace(t_lagged.min() - 200, t_lagged.max() + 200, 1000)
    >> *)
Definition t_lagged (lag_ : Q) (X : Coords) : list Q :=
  zip_with (fun ti bi => ti - lag_ * inject_Z bi) (fst X) (snd X).

Definition t_grid (lag_ : Q) (X : Coords) : option (list Q) :=
  match array_min (t_lagged lag_ X), array_max (t_lagged lag_ X) with
  | Some lo, Some hi => Some (linspace (lo - 200) (hi + 200) 1000)
  | _, _ => None
  end.

(** *** [linspace], [min] and [max] *)

Lemma length_linspace a b n : length (linspace a b n) = n.
Proof. unfold linspace. rewrite length_map. apply length_seq. Qed.

Lemma lookup_linspace a b n i :
  (i < n)%nat ->
  linspace a b n !! i
  = Some (a + inject_Z (Z.of_nat i) * ((b - a) / inject_Z (Z.of_nat (n - 1)))).
Proof.
  intros Hi. unfold linspace. rewrite list_lookup_fmap, lookup_seq_lt by exact Hi.
  reflexivity.
Qed.

Lemma sorted_map_seq (f : nat -> Q) k n :
  (forall i, f i <= f (S i)) -> Sorted Qle (map f (seq k n)).
Proof.
  intros Hf. revert k. induction n as [|n IH]; intros k; simpl; constructor.
  - apply IH.
  - destruct n; simpl; constructor. apply Hf.
Qed.

Lemma linspace_step_nonneg a b n : a <= b -> 0 <= (b - a) / inject_Z (Z.of_nat (n - 1)).
Proof.
  intros Hab. unfold Qdiv. apply Qmult_le_0_compat.
  - lra.
  - apply Qinv_le_0_compat. change 0 with (inject_Z 0). rewrite <- Zle_Qle. lia.
Qed.

Lemma sorted_linspace a b n : a <= b -> Sorted Qle (linspace a b n).
Proof.
  intros Hab. unfold linspace. apply sorted_map_seq. intros i.
  pose proof (linspace_step_nonneg a b n Hab) as Hstep.
  set (step := (b - a) / inject_Z (Z.of_nat (n - 1))) in *.
  replace (Z.of_nat (S i)) with (Z.of_nat i + 1)%Z by lia.
  rewrite inject_Z_plus. change (inject_Z 1) with 1. 
  apply Qplus_le_r. 
  rewrite Qmult_plus_distr_l, Qmult_1_l, <- (Qplus_0_r (inject_Z (Z.of_nat i) * step)) at 1.
  apply Qplus_le_r. exact Hstep.
Qed.

Lemma linspace_first a b n :
  (0 < n)%nat -> exists x, linspace a b n !! 0%nat = Some x /\ x == a.
Proof.
  intros Hn. eexists. split; [apply lookup_linspace; exact Hn|]. simpl. ring.
Qed.

Lemma linspace_last a b n :
  (2 <= n)%nat -> exists x, linspace a b n !! (n - 1)%nat = Some x /\ x == b.
Proof.
  intros Hn. eexists. split; [apply lookup_linspace; lia|].
  field. change 0 with (inject_Z 0). rewrite inject_Z_injective. lia.
Qed.

Lemma fold_min_le (l : list Q) x :
  fold_left Qmin l x <= x /\ Forall (fun y => fold_left Qmin l x <= y) l.
Proof.
  revert x. induction l as [|y l IH]; intros x; simpl; [split; [apply Qle_refl | constructor]|].
  destruct (IH (Qmin x y)) as [H1 H2]. split.
  - eapply Qle_trans; [exact H1 | apply Q.le_min_l].
  - constructor; [eapply Qle_trans; [exact H1 | apply Q.le_min_r] | exact H2].
Qed.

Lemma fold_max_ge (l : list Q) x :
  x <= fold_left Qmax l x /\ Forall (fun y => y <= fold_left Qmax l x) l.
Proof.
  revert x. induction l as [|y l IH]; intros x; simpl; [split; [apply Qle_refl | constructor]|].
  destruct (IH (Qmax x y)) as [H1 H2]. split.
  - eapply Qle_trans; [apply Q.le_max_l | exact H1].
  - constructor; [eapply Qle_trans; [apply Q.le_max_r | exact H1] | exact H2].
Qed.

Lemma fold_min_in (l : list Q) x : fold_left Qmin l x ∈ x :: l.
Proof.
  revert x. induction l as [|y l IH]; intros x; simpl; [apply list_elem_of_here|].
  specialize (IH (Qmin x y)). apply elem_of_cons in IH as [-> | IH].
  - unfold Qmin, GenericMinMax.gmin. destruct (x ?= y);
      [apply list_elem_of_here | apply list_elem_of_here
      | apply list_elem_of_further, list_elem_of_here].
  - do 2 apply list_elem_of_further. exact IH.
Qed.

Lemma fold_max_in (l : list Q) x : fold_left Qmax l x ∈ x :: l.
Proof.
  revert x. induction l as [|y l IH]; intros x; simpl; [apply list_elem_of_here|].
  specialize (IH (Qmax x y)). apply elem_of_cons in IH as [-> | IH].
  - unfold Qmax, GenericMinMax.gmax. destruct (x ?= y);
      [apply list_elem_of_here
      | apply list_elem_of_further, list_elem_of_here
      | apply list_elem_of_here].
  - do 2 apply list_elem_of_further. exact IH.
Qed.

Lemma array_min_in a lo : array_min a = Some lo -> lo ∈ a.
Proof. destruct a as [|x a]; simpl; [discriminate|]. intros [= <-]. apply fold_min_in. Qed.

Lemma array_max_in a hi : array_max a = Some hi -> hi ∈ a.
Proof. destruct a as [|x a]; simpl; [discriminate|]. intros [= <-]. apply fold_max_in. Qed.

Lemma array_min_le a lo : array_min a = Some lo -> Forall (fun y => lo <= y) a.
Proof.
  destruct a as [|x a]; simpl; [discriminate|]. intros [= <-].
  destruct (fold_min_le a x) as [H1 H2]. constructor; assumption.
Qed.

Lemma array_max_ge a hi : array_max a = Some hi -> Forall (fun y => y <= hi) a.
Proof.
  destruct a as [|x a]; simpl; [discriminate|]. intros [= <-].
  destruct (fold_max_ge a x) as [H1 H2]. constructor; assumption.
Qed.

(** *** The data set *)

Lemma Forall2_Qeq_zip_zero (l : list Q) lag_ n :
  length l = n ->
  Forall2 Qeq (zip_with (fun ti bi => ti - lag_ * inject_Z bi) l (repeat 0%Z n)) l.
Proof.
  revert n. induction l as [|x l IH]; intros [|n] Hl; simpl in *;
    try discriminate; constructor.
  - change (inject_Z 0) with 0. ring.
  - apply IH. lia.
Qed.

Lemma Forall2_Qeq_zip_one (l : list Q) lag_ n :
  length l = n ->
  Forall2 Qeq (zip_with (fun ti bi => ti - lag_ * inject_Z bi) l (repeat 1%Z n))
          (map (fun ti => ti - lag_) l).
Proof.
  revert n. induction l as [|x l IH]; intros [|n] Hl; simpl in *;
    try discriminate; constructor.
  - change (inject_Z 1) with 1. ring.
  - apply IH. lia.
Qed.

(** X4.  For a table of [N] aligned rows the four arrays have [2 N] entries,
    the band indices are 0 on the first half and 1 on the second, the
    noise variances are non-negative, and the time-delay transform leaves
    the times of image A unchanged and moves the times of image B back by
    the lag. *)
Theorem dataset_shape (data : Table) (lag_ : Q) :
  aligned data ->
  let N := len data in
  let X := dataset_X data in
  length (fst X) = (2 * N)%nat
  /\ length (snd X) = (2 * N)%nat
  /\ length (dataset_y data) = (2 * N)%nat
  /\ length (dataset_diag data) = (2 * N)%nat
  /\ Forall (fun b => b = 0%Z \/ b = 1%Z) (snd X)
  /\ (forall i b, snd X !! i = Some b -> b = if (i <? N)%nat then 0%Z else 1%Z)
  /\ Forall (fun d => 0 <= d) (dataset_diag data)
  /\ Forall2 Qeq (time_delay_transform lag_ X)
                 (jd data ++ map (fun ti => ti - lag_) (jd data)).
Proof.
  intros (Ha & Hae & Hb & Hbe) N X. subst X N.
  unfold dataset_X, dataset_y, dataset_diag, len. simpl fst. simpl snd.
  rewrite ?length_map, !length_app, !repeat_length, Ha, Hae, Hb, Hbe.
  repeat (split; [lia|]). split; [|split; [|split]].
  - apply Forall_app. split; apply Forall_forall; intros b Hin;
      apply list_elem_of_In, repeat_spec in Hin; auto.
  - intros i b Hi. destruct (i <? length (jd data))%nat eqn:HiN.
    + apply Nat.ltb_lt in HiN. rewrite lookup_app_l in Hi by (rewrite repeat_length; lia).
      apply list_elem_of_lookup_2, list_elem_of_In, repeat_spec in Hi. exact Hi.
    + apply Nat.ltb_ge in HiN. rewrite lookup_app_r in Hi by (rewrite repeat_length; lia).
      apply list_elem_of_lookup_2, list_elem_of_In, repeat_spec in Hi. exact Hi.
  - apply Forall_forall. intros d Hd. apply list_elem_of_fmap in Hd as (e & -> & _).
    apply Qpower.Qsqr_nonneg.
  - unfold time_delay_transform. rewrite zip_with_app by (rewrite repeat_length; reflexivity).
    apply Forall2_app; [apply Forall2_Qeq_zip_zero | apply Forall2_Qeq_zip_one]; reflexivity.
Qed.

(** *** The prediction grid *)

(** X5.  For coordinates with at least one observation the grid exists, has
    1000 points in non-decreasing order, runs from 200 days before the
    earliest lagged time [lo] to 200 days after the latest [hi], both of
    them lagged observation times, and every lagged observation time
    lies inside it with that margin; without observations [min]
    raises. *)
Theorem t_grid_covers (lag_ : Q) (X : Coords) :
  length (snd X) = length (fst X) ->
  (t_lagged lag_ X = time_delay_transform lag_ X)
  /\ (fst X = [] -> t_grid lag_ X = None)
  /\ (fst X <> [] ->
      exists grid_ lo hi first_ last_,
        t_grid lag_ X = Some grid_
        /\ lo ∈ t_lagged lag_ X /\ hi ∈ t_lagged lag_ X
        /\ length grid_ = 1000%nat
        /\ Sorted Qle grid_
        /\ grid_ !! 0%nat = Some first_ /\ first_ == lo - 200
        /\ grid_ !! 999%nat = Some last_ /\ last_ == hi + 200
        /\ Forall (fun x => first_ + 200 <= x /\ x <= last_ - 200) (t_lagged lag_ X)).
Proof.
  intros Hlen. destruct X as [t band]. simpl in Hlen.
  split; [reflexivity|]. split.
  - simpl. intros ->. reflexivity.
  - simpl fst. intros Hne. unfold t_grid.
    destruct (t_lagged lag_ (t, band)) as [|x tl] eqn:Htl.
    { exfalso. apply (f_equal length) in Htl. unfold t_lagged in Htl. simpl in Htl.
      rewrite length_zip_with, Hlen in Htl. destruct t; [congruence | simpl in Htl; lia]. }
    destruct (array_min (x :: tl)) as [lo|] eqn:Hlo; [|discriminate].
    destruct (array_max (x :: tl)) as [hi|] eqn:Hhi; [|discriminate].
    pose proof (array_min_le _ _ Hlo) as Hmin. pose proof (array_max_ge _ _ Hhi) as Hmax.
    assert (Hlohi : lo <= hi).
    { inversion Hmin; inversion Hmax; subst. eapply Qle_trans; eassumption. }
    destruct (linspace_first (lo - 200) (hi + 200) 1000 ltac:(lia)) as (f & Hf & Hfeq).
    destruct (linspace_last (lo - 200) (hi + 200) 1000 ltac:(lia)) as (l & Hl & Hleq).
    exists (linspace (lo - 200) (hi + 200) 1000), lo, hi, f, l.
    split; [reflexivity|].
    split; [apply array_min_in, Hlo|]. split; [apply array_max_in, Hhi|].
    split; [apply length_linspace|].
    split; [apply sorted_linspace; lra|].
    split; [exact Hf|]. split; [exact Hfeq|]. split; [exact Hl|]. split; [exact Hleq|].
    rewrite Forall_forall in *. intros y Hy.
    specialize (Hmin y Hy). specialize (Hmax y Hy). rewrite Hfeq, Hleq. lra.
Qed.

(** *** The simulation writes every entry of [y] *)

Section Simulation.

Variables BaseKernel Key : Type.
Variable Matern32 : Q -> BaseKernel.
Variable jnp_exp : Q -> Q.
Variable jnp_log : Q -> Q.
Variable gp_sample : GaussianProcess BaseKernel -> Key -> list Q.

(** X6.  The simulated magnitudes do not depend on what [jnp.empty_like]
    returned: [inds] covers every position, so the sample overwrites the
    whole array, and the result is the sample in observation order. *)
Theorem simulate_overwrites_buffer key (t : list Q) band diag empty empty' :
  length band = length t ->
  length empty = length t ->
  length empty' = length t ->
  (forall gp, length (gp_sample gp key) = length (gp_diag BaseKernel gp)) ->
  let y := simulate BaseKernel Key Matern32 jnp_exp jnp_log gp_sample key
             (t, band) diag empty in
  y = simulate BaseKernel Key Matern32 jnp_exp jnp_log gp_sample key
        (t, band) diag empty'
  /\ length y = length t
  /\ Permutation y
       (gp_sample (fst (build_gp BaseKernel Matern32 jnp_exp
                          (true_params jnp_log) (t, band) diag)) key).
Proof.
  intros Hb He He' Hs y. subst y.
  cbv beta iota zeta delta [simulate build_gp fst snd].
  set (tau := time_delay_transform (lag (true_params jnp_log)) (t, band)).
  assert (Htau : length tau = length t)
    by (apply length_time_delay_transform; exact Hb).
  assert (Hp : Permutation (argsort tau) (seq 0 (length empty)))
    by (rewrite He, <- Htau; apply argsort_perm).
  set (gp := {| gp_kernel := _; gp_X := _; gp_diag := _; gp_mean := _ |}).
  assert (Hlen : length (gp_sample gp key) = length empty).
  { rewrite Hs. unfold gp. cbn [gp_diag].
    rewrite length_gather, length_argsort, Htau, He. reflexivity. }
  split; [apply scatter_buffer_irrelevant; [lia | exact Hp | exact Hlen]|].
  split; [rewrite length_scatter; exact He|].
  rewrite <- (gather_scatter 0 empty (argsort tau) (gp_sample gp key) Hp Hlen) at 2.
  symmetry. apply gather_perm. rewrite length_scatter. exact Hp.
Qed.

End Simulation.

(** A table of three rows. *)
Definition demo_table : Table := {|
  jd := [0; 100; 500];
  a_mag := [17; 18; 17];
  a_mag_err := [1 # 10; 2 # 10; 1 # 10];
  b_mag := [18; 17; 18];
  b_mag_err := [1 # 10; 1 # 10; 3 # 10]
|}.

Example demo_transform :
  map Qred (time_delay_transform 420 (dataset_X demo_table))
  = [0; 100; 500; -420; -320; 80].
Proof. vm_compute. reflexivity. Qed.

Example demo_grid_ends :
  (fun g => (Qred <$> g !! 0%nat, Qred <$> g !! 999%nat, length g))
    <$> t_grid 420 (dataset_X demo_table)
  = Some (Some (-620), Some 700, 1000%nat).
Proof. vm_compute. reflexivity. Qed.

Lemma dataset_shape_witness :
  aligned demo_table
  /\ length (dataset_y demo_table) = 6%nat
  /\ Forall (fun d => 0 <= d) (dataset_diag demo_table).
Proof.
  assert (Ha : aligned demo_table) by (repeat split; reflexivity).
  split; [exact Ha|].
  destruct (dataset_shape demo_table 420 Ha) as (_ & _ & Hy & _ & _ & _ & Hd & _).
  split; [exact Hy | exact Hd].
Defined.

Lemma t_grid_covers_witness :
  length (snd (dataset_X demo_table)) = length (fst (dataset_X demo_table))
  /\ fst (dataset_X demo_table) <> []
  /\ exists grid_, t_grid 420 (dataset_X demo_table) = Some grid_
                   /\ Sorted Qle grid_.
Proof.
  assert (Hne : fst (dataset_X demo_table) <> []) by discriminate.
  split; [reflexivity|]. split; [exact Hne|].
  destruct (t_grid_covers 420 (dataset_X demo_table) eq_refl) as (_ & _ & Hg).
  destruct (Hg Hne) as (g & lo & hi & f & l & Hgrid & _ & _ & _ & Hs & _).
  exists g. split; [exact Hgrid | exact Hs].
Defined.

Lemma simulate_overwrites_buffer_witness :
  (forall gp, length (Toy.gp_sample gp 10%nat) = length (gp_diag Q gp))
  /\ simulate Q nat Toy.Matern32 Toy.jnp_exp Toy.jnp_log Toy.gp_sample 10%nat
       (Toy.t, Toy.band) Toy.diag [0; 0; 0; 0]
     = simulate Q nat Toy.Matern32 Toy.jnp_exp Toy.jnp_log Toy.gp_sample 10%nat
         (Toy.t, Toy.band) Toy.diag [7; 8; 9; 10].
Proof.
  assert (Hs : forall gp, length (Toy.gp_sample gp 10%nat) = length (gp_diag Q gp))
    by (intros gp; unfold Toy.gp_sample; apply length_map).
  split; [exact Hs|].
  exact (proj1 (simulate_overwrites_buffer Q nat Toy.Matern32 Toy.jnp_exp
                  Toy.jnp_log Toy.gp_sample 10%nat Toy.t Toy.band Toy.diag
                  [0; 0; 0; 0] [7; 8; 9; 10] eq_refl eq_refl eq_refl Hs)).
Defined.

End QuasarData.

(** ** Quasar time delay: what the grid search leaves alone *)

Module QuasarInit.
Import Py Quasar.

Local Open Scope Q_scope.

Section Frame.

Variable Exn : Type.
Variable jnp_log : Q -> Q.
Variable loss : Params -> Q.
Variable opt_run : Params -> Exn + Soln.

(** The dictionaries of [h0] are unchanged in [s], and the names of the
    cell refer to dictionaries made by the cell. *)
Record untouched (h0 : gmap nat Params) (s : Store) : Prop := {
  kept : forall l p, h0 !! l = Some p -> heap s !! l = Some p;
  init_new : init s ∉ dom h0;
  minimum_new : snd (minimum s) ∉ dom h0
}.

Lemma first_store_untouched h0 : untouched h0 (first_store jnp_log loss h0).
Proof.
  unfold first_store, alloc. pose proof (is_fresh (dom h0)) as Hf.
  constructor; simpl; try exact Hf.
  intros l p Hl. rewrite lookup_insert_ne; [exact Hl|].
  intros <-. apply Hf, elem_of_dom. eauto.
Qed.

Lemma loop_body_untouched h0 lag_ s :
  untouched h0 s -> untouched h0 (snd (loop_body Exn opt_run lag_ s)).
Proof.
  intros [Hk Hi Hm].
  set (h1 := alter (set_item_lag lag_) (init s) (heap s)).
  assert (Hk1 : forall l p, h0 !! l = Some p -> h1 !! l = Some p).
  { intros l p Hl. unfold h1. rewrite lookup_alter_ne; [apply Hk, Hl|].
    intros <-. apply Hi, elem_of_dom. eauto. }
  assert (Hk2 : forall v l p, h0 !! l = Some p -> <[fresh (dom h1) := v]> h1 !! l = Some p).
  { intros v l p Hl. rewrite lookup_insert_ne; [apply Hk1, Hl|].
    intros <-. apply (is_fresh (dom h1)), elem_of_dom. rewrite (Hk1 _ _ Hl). eauto. }
  assert (Hnew : fresh (dom h1) ∉ dom h0).
  { intros Hin. apply elem_of_dom in Hin as [p Hp].
    apply (is_fresh (dom h1)), elem_of_dom. rewrite (Hk1 _ _ Hp). eauto. }
  unfold loop_body, bind, modify, get, call, new_dict, when, alloc. simpl. fold h1.
  destruct (opt_run (h1 !!! init s)) as [e | soln]; simpl.
  - constructor; simpl; assumption.
  - destruct (Jnp.Qltb (fun_val soln) (fst (minimum s))); simpl;
      constructor; simpl; try assumption; apply Hk2.
Qed.

Lemma for_each_untouched h0 gs s :
  untouched h0 s -> untouched h0 (snd (for_each gs (loop_body Exn opt_run) s)).
Proof.
  revert s. induction gs as [|g gs IH]; intros s Hs; simpl; [exact Hs|].
  unfold bind. pose proof (loop_body_untouched h0 g s Hs) as Hg.
  destruct (loop_body Exn opt_run g s) as [[[]|e] s']; simpl in *;
    [apply IH, Hg | exact Hg].
Qed.

(** X7.  Whatever [opt.run] returns or raises, the grid search leaves every
    dictionary that existed before it unchanged ([true_params] among
    them: the loop writes to the copy made by [dict(true_params)]), and
    [init] and [minimum[1]] name dictionaries made by the cell. *)
Theorem grid_search_keeps_earlier_dicts (h0 : gmap nat Params) :
  let s := snd (grid_search Exn jnp_log loss opt_run h0) in
  (forall l p, h0 !! l = Some p -> heap s !! l = Some p)
  /\ (init s ∉ dom h0)
  /\ (snd (minimum s) ∉ dom h0).
Proof.
  intros s. subst s. unfold grid_search, bind.
  pose proof (for_each_untouched h0 (linspace 0 1000 100) _
                (first_store_untouched h0)) as H.
  revert H. generalize (first_store jnp_log loss h0). intros s0.
  destruct (for_each (linspace 0 1000 100) (loop_body Exn opt_run) s0)
    as [[[]|e] s']; simpl; intros [Hk Hi Hm]; repeat split; assumption.
Qed.

End Frame.

Example earlier_dict_kept :
  heap (snd (grid_search Empty_set Toy.jnp_log (quadratic_loss 420)
               (fun p => inr (stalled_opt (quadratic_loss 420) p))
               {[ 5%nat := true_params Toy.jnp_log ]})) !! 5%nat
  = Some (true_params Toy.jnp_log).
Proof. vm_compute. reflexivity. Qed.

Lemma grid_search_keeps_earlier_dicts_witness :
  ({[ 5%nat := true_params Toy.jnp_log ]} : gmap nat Params) !! 5%nat
  = Some (true_params Toy.jnp_log)
  /\ heap (snd (grid_search Empty_set Toy.jnp_log (quadratic_loss 400)
                  (fun p => inr (newton_opt 400 p))
                  {[ 5%nat := true_params Toy.jnp_log ]})) !! 5%nat
     = Some (true_params Toy.jnp_log).
Proof.
  assert (H0 : ({[ 5%nat := true_params Toy.jnp_log ]} : gmap nat Params) !! 5%nat
               = Some (true_params Toy.jnp_log)) by apply lookup_singleton_eq.
  split; [exact H0|].
  exact (proj1 (grid_search_keeps_earlier_dicts Empty_set Toy.jnp_log
                  (quadratic_loss 400) (fun p => inr (newton_opt 400 p))
                  {[ 5%nat := true_params Toy.jnp_log ]}) 5%nat _ H0).
Defined.

End QuasarInit.

(** ** Quasar time delay: the NumPyro model and its initial values *)

Module QuasarModel.
Import Jnp NumPyro Quasar.

Local Open Scope Q_scope.
Local Open Scope numpyro_scope.

Inductive value : Type :=
| Scalar (x : Q)
| Array (a : list Q).

Definition as_scalar (v : value) : Q :=
  match v with Scalar x => x | Array a => nth 0 a 0 end.

Definition as_array (v : value) : list Q :=
  match v with Scalar x => [x] | Array a => a end.

(** [dict(params)]: the items of a parameter dictionary. *)
Definition items (params : Params) : gmap string value :=
  <["lag" := Scalar (lag params)]>
    (<["log_ell" := Scalar (log_ell params)]>
       (<["amps" := Array (amps params)]>
          (<["means" := Array (means params)]> ∅))).

(** [a[i]] for an integer [i] and a JAX array [a]: an index past the
    end is clamped to the last entry; an array without entries cannot be
    indexed and the subscript raises. *)
Definition getitem (a : list Q) (i : Z) : option Q :=
  match a with
  | [] => None
  | _ :: _ => Some (index 0 a i)
  end.

(** <<
    init_params = dict(minimum[1])
    init_params["mean_a"] = init_params["means"][0]
    init_params["delta_mean"] = init_params["means"][1] - init_params["means"][0]
    >>
    A missing key raises. *)
Definition init_params (selected : Params) : option (gmap string value) :=
  let d := items selected in
  m ← d !! "means";
  m0 ← getitem (as_array m) 0;
  let d := <["mean_a" := Scalar m0]> d in
  m ← d !! "means";
  m1 ← getitem (as_array m) 1;
  m0 ← getitem (as_array m) 0;
  Some (<["delta_mean" := Scalar (m1 - m0)]> d).

(** [infer.init_to_value(values=values)]: a latent site whose name is a
    key of [values] starts at that value, any other latent site at the
    draw of [init_to_uniform]. *)
Definition init_to_value (values : gmap string value)
    (init_to_uniform : string -> value) (name : string) : value :=
  default (init_to_uniform name) (values !! name).

(** The sampled sites of [model]. *)
Definition latent_sites : list string :=
  ["lag"; "log_ell"; "amps"; "mean_a"; "delta_mean"].

Section Model.

(** tinygp and jax.numpy as in [Quasar]; [gp.condition(y, X_test).gp.loc];
    the global [t_grid]. *)
Variable BaseKernel : Type.
Variable Matern32 : Q -> BaseKernel.
Variable jnp_exp : Q -> Q.
Variable jnp_log : Q -> Q.
Variable log_probability : GaussianProcess BaseKernel -> list Q -> Q.
Variable condition_loc : GaussianProcess BaseKernel -> list Q -> Coords -> list Q.
Variable t_grid : list Q.

(** [dist.Uniform(low, high)] drawn with the given [sample_shape], and
    [gp.numpyro_dist()]. *)
Inductive distribution : Type :=
| Uniform (low high : Q) (sample_shape : list nat)
| GPDist (gp : GaussianProcess BaseKernel).

Definition M (A : Type) : Type := model value distribution Q A.

(** The dictionary [params] of [model], with
    [means = jnp.stack((mean_a, mean_a + delta_mean))]. *)
Definition model_params (lag_ log_ell_ amps_ mean_a delta_mean : value) : Params :=
  let means_ := [as_scalar mean_a; as_scalar mean_a + as_scalar delta_mean] in
  {| lag := as_scalar lag_;
     log_ell := as_scalar log_ell_;
     amps := as_array amps_;
     means := means_ |}.

(** The parameters of the model at a point of the latent space. *)
Definition params_at (latent : string -> value) : Params :=
  model_params (latent "lag") (latent "log_ell") (latent "amps")
               (latent "mean_a") (latent "delta_mean").

(** <<
    def model(X, diag, y):
        lag = numpyro.sample("lag", dist.Uniform(0.0, 1000.0))
        log_ell = numpyro.sample("log_ell", dist.Uniform(jnp.log(10), jnp.log(1000.0)))
        amps = numpyro.sample("amps", dist.Uniform(-5.0, 5.0), sample_shape=(2,))
        mean_a = numpyro.sample("mean_a", dist.Uniform(17.0, 18.0))
        delta_mean = numpyro.sample("delta_mean", dist.Uniform(-2.0, 2.0))
        means = jnp.stack((mean_a, mean_a + delta_mean))
        params = {"lag": lag, "log_ell": log_ell, "amps": amps, "means": means}
        gp, inds = build_gp(params, X, diag)
        numpyro.sample("y", gp.numpyro_dist(), obs=y[inds])
        numpyro.deterministic(
            "pred_a",
            gp.condition(y[inds], (t_grid, jnp.zeros_like(t_grid, dtype=int))).gp.loc)
        numpyro.deterministic(
            "pred_b",
            gp.condition(y[inds], (t_grid, jnp.ones_like(t_grid, dtype=int))).gp.loc)
    >> *)
Definition model (X : Coords) (diag y : list Q) : M unit :=
  lag_ <- sample "lag" (Uniform 0 1000 []) None ;;
  log_ell_ <- sample "log_ell" (Uniform (jnp_log 10) (jnp_log 1000) []) None ;;
  amps_ <- sample "amps" (Uniform (-5) 5 [2%nat]) None ;;
  mean_a <- sample "mean_a" (Uniform 17 18 []) None ;;
  delta_mean <- sample "delta_mean" (Uniform (-2) 2 []) None ;;
  let params := model_params lag_ log_ell_ amps_ mean_a delta_mean in
  let '(gp, inds) := build_gp BaseKernel Matern32 jnp_exp params X diag in
  _ <- sample "y" (GPDist gp) (Some (Array (gather 0 y inds))) ;;
  deterministic "pred_a"
    (Array (condition_loc gp (gather 0 y inds) (t_grid, map (fun _ => 0%Z) t_grid))) ;;
  deterministic "pred_b"
    (Array (condition_loc gp (gather 0 y inds) (t_grid, map (fun _ => 1%Z) t_grid))).

(** The log-probability of a site value under its distribution. *)
Variable log_prob : distribution -> value -> Q.

(** The sum of the prior terms at a point of the latent space. *)
Definition log_prior (latent : string -> value) : Q :=
  log_prob (Uniform 0 1000 []) (latent "lag")
  + log_prob (Uniform (jnp_log 10) (jnp_log 1000) []) (latent "log_ell")
  + log_prob (Uniform (-5) 5 [2%nat]) (latent "amps")
  + log_prob (Uniform 17 18 []) (latent "mean_a")
  + log_prob (Uniform (-2) 2 []) (latent "delta_mean").

Abbreviation loss := (loss BaseKernel Matern32 jnp_exp log_probability).
Abbreviation build_gp := (build_gp BaseKernel Matern32 jnp_exp).

(** X8.  At every point of the latent space the model returns; its sampled
    sites are lag, log_ell, amps, mean_a and delta_mean, and "y" is
    observed; the values recorded at "pred_a" and "pred_b" do not enter
    the target: when the distribution of [gp.numpyro_dist()] scores a
    value as [gp.log_probability] does, the target log-density is the sum
    of the five prior terms minus the [loss] of the grid search at the
    model's parameters, and it depends on the point only through the five
    sampled sites. *)
Theorem model_target_is_prior_minus_loss
    (X : Coords) (diag y : list Q) (latent : string -> value) :
  (forall gp v, log_prob (GPDist gp) (Array v) = log_probability gp v) ->
  exists tr,
    run (model X diag y) latent = Some tr
    /\ latent_names tr = latent_sites
    /\ log_density log_prob Qplus 0 tr
       == log_prior latent - loss X diag y (params_at latent)
    /\ (forall latent',
          Forall (fun name => latent' name = latent name) latent_sites ->
          run (model X diag y) latent' = Some tr).
Proof.
  intros Hlp. eexists. split; [reflexivity|]. split; [reflexivity|]. split.
  - unfold log_density, log_prior, Quasar.loss, params_at. simpl.
    rewrite Hlp.
    match goal with |- context [log_probability ?g ?v] =>
      generalize (log_probability g v) end.
    intros lp. lra.
  - intros latent' Hl. unfold latent_sites in Hl.
    repeat (apply Forall_cons in Hl as [? Hl]).
    unfold run, model, bind, sample, deterministic. simpl.
    repeat match goal with H : latent' _ = latent _ |- _ => rewrite H; clear H end.
    reflexivity.
Qed.

(** X9.  The values [init_params] gives the sampler, for a selected
    dictionary whose "means" has two entries: each of the five sampled
    sites has an initial value, so none is drawn by [init_to_uniform];
    and the model's parameters at the initial point are the selected
    ones, so the sampler starts at the Gaussian process the grid search
    selected, with the same sort order, kernel, coordinates, noise and
    mean function. *)
Theorem init_params_round_trip (selected : Params) (m0 m1 : Q)
    (init_to_uniform : string -> value) :
  means selected = [m0; m1] ->
  exists d,
    init_params selected = Some d
    /\ Forall (fun name => is_Some (d !! name)) latent_sites
    /\ let q := params_at (init_to_value d init_to_uniform) in
       lag q = lag selected
       /\ log_ell q = log_ell selected
       /\ amps q = amps selected
       /\ Forall2 Qeq (means q) (means selected)
       /\ forall X diag,
            let gp := fst (build_gp q X diag) in
            let gp' := fst (build_gp selected X diag) in
            snd (build_gp q X diag) = snd (build_gp selected X diag)
            /\ gp_kernel _ gp = gp_kernel _ gp'
            /\ gp_X _ gp = gp_X _ gp'
            /\ gp_diag _ gp = gp_diag _ gp'
            /\ forall c, gp_mean _ gp c == gp_mean _ gp' c.
Proof.
  intros Hm.
  destruct selected as [lag_ log_ell_ amps_ means_]. simpl in Hm. subst means_.
  set (d := <["delta_mean" := Scalar (m1 - m0)]>
              (<["mean_a" := Scalar m0]>
                 (items {| lag := lag_; log_ell := log_ell_; amps := amps_;
                           means := [m0; m1] |}))).
  assert (Hlag : d !! "lag" = Some (Scalar lag_)) by reflexivity.
  assert (Hell : d !! "log_ell" = Some (Scalar log_ell_)) by reflexivity.
  assert (Hamps : d !! "amps" = Some (Array amps_)) by reflexivity.
  assert (Hma : d !! "mean_a" = Some (Scalar m0)) by reflexivity.
  assert (Hdm : d !! "delta_mean" = Some (Scalar (m1 - m0))) by reflexivity.
  exists d. split; [reflexivity|]. split.
  { unfold latent_sites. repeat apply Forall_cons_2; try apply Forall_nil_2; eauto. }
  assert (Hmeans : Forall2 Qeq [m0; m0 + (m1 - m0)] [m0; m1]).
  { repeat constructor; ring. }
  clearbody d. cbv zeta.
  unfold params_at, model_params, init_to_value.
  rewrite Hlag, Hell, Hamps, Hma, Hdm. simpl.
  repeat split; try reflexivity; try exact Hmeans.
  intros [t band]. unfold mean_func, index. simpl length.
  match goal with |- context [nth ?k _ _] => generalize k end.
  intros [|[|[|k]]]; simpl; try reflexivity. ring.
Qed.

End Model.

(** Stand-ins for the library side, to run the model. *)
Module Toy.

Definition condition_loc (gp : GaussianProcess Q) (y : list Q) (X_test : Coords)
  : list Q := map (gp_mean Q gp) (zip (fst X_test) (snd X_test)).

Definition log_prob (fn : distribution Q) (v : value) : Q :=
  match fn with
  | Uniform _ low high _ => low - high
  | GPDist _ gp => Quasar.Toy.log_probability gp (as_array v)
  end.

Definition latent (name : string) : value :=
  if String.eqb name "amps" then Array [8 # 100; 12 # 100]
  else if String.eqb name "mean_a" then Scalar 17
  else Scalar 1.

Definition selected : Params :=
  {| lag := 410; log_ell := 4; amps := [1 # 10; 1 # 10]; means := [17; 35 # 2] |}.

End Toy.

Example quasar_latent_names :
  option_map latent_names
    (run (model Q Quasar.Toy.Matern32 Quasar.Toy.jnp_exp Quasar.Toy.jnp_log
            Toy.condition_loc [0; 1] (Quasar.Toy.t, Quasar.Toy.band)
            Quasar.Toy.diag Quasar.Toy.y) Toy.latent)
  = Some latent_sites.
Proof. reflexivity. Qed.

Example quasar_init_params :
  init_params Toy.selected
  = Some (<["delta_mean" := Scalar ((35 # 2) - 17)]>
            (<["mean_a" := Scalar 17]> (items Toy.selected))).
Proof. reflexivity. Qed.

(** A one-entry "means": the index 1 is clamped, so [delta_mean] is the
    difference of the entry with itself. *)
Example init_params_short_means :
  init_params {| lag := 410; log_ell := 4; amps := []; means := [17] |}
  = Some (<["delta_mean" := Scalar (17 - 17)]>
            (<["mean_a" := Scalar 17]>
               (items {| lag := 410; log_ell := 4; amps := []; means := [17] |}))).
Proof. reflexivity. Qed.

Lemma model_target_is_prior_minus_loss_witness :
  (forall gp v, Toy.log_prob (GPDist Q gp) (Array v) = Quasar.Toy.log_probability gp v)
  /\ exists tr,
       run (model Q Quasar.Toy.Matern32 Quasar.Toy.jnp_exp Quasar.Toy.jnp_log
              Toy.condition_loc [0; 1] (Quasar.Toy.t, Quasar.Toy.band)
              Quasar.Toy.diag Quasar.Toy.y) Toy.latent = Some tr
       /\ latent_names tr = latent_sites.
Proof.
  assert (H : forall gp v, Toy.log_prob (GPDist Q gp) (Array v)
                           = Quasar.Toy.log_probability gp v)
    by (intros gp v; reflexivity).
  split; [exact H|].
  destruct (model_target_is_prior_minus_loss Q Quasar.Toy.Matern32
              Quasar.Toy.jnp_exp Quasar.Toy.jnp_log Quasar.Toy.log_probability
              Toy.condition_loc [0; 1] Toy.log_prob
              (Quasar.Toy.t, Quasar.Toy.band) Quasar.Toy.diag Quasar.Toy.y
              Toy.latent H) as (tr & Hrun & Hnames & _).
  exists tr. split; [exact Hrun | exact Hnames].
Defined.

Lemma init_params_round_trip_witness :
  means Toy.selected = [17; 35 # 2]
  /\ exists d,
       init_params Toy.selected = Some d
       /\ lag (params_at (init_to_value d (fun _ => Scalar 0))) = 410.
Proof.
  split; [reflexivity|].
  destruct (init_params_round_trip Q Quasar.Toy.Matern32 Quasar.Toy.jnp_exp
              Toy.selected 17 (35 # 2) (fun _ => Scalar 0) eq_refl)
    as (d & Hd & _ & Hlag & _).
  exists d. split; [exact Hd | exact Hlag].
Defined.

End QuasarModel.

(** ** Kernel assessment: the calls of the model *)

Module AssessmentFits.
Import Jnp NumPyro AssessmentModel.

Local Open Scope Q_scope.

Section Calls.

Variable condition : GaussianProcess -> list Q -> list Q -> Q -> Q * GaussianProcess.
Variable gp_log_probability : GaussianProcess -> list Q -> Q.
Variable gp_loc : GaussianProcess -> list Q.
Variable gp_variance : GaussianProcess -> list Q.
Variable jnp_sqrt : list Q -> list Q.
Variable log_prob : distribution -> value -> Q.

Abbreviation model :=
  (model condition gp_log_probability gp_loc gp_variance jnp_sqrt).

(** The model raises exactly when test times are given without test
    values. *)
Definition raises (t_test y_test : option (list Q)) : bool :=
  match t_test, y_test with
  | Some _, None => true
  | _, _ => false
  end.

Lemma run_model_training_only (kb : M Kernel) latent kernel tr0
    t_train y_train y_test t_pred :
  kb latent [] = Some (kernel, tr0) ->
  let gp := {| gp_kernel := kernel; gp_X := t_train; gp_diag := yerr ^ 2 |} in
  run (model kb t_train y_train None y_test t_pred) latent
  = Some (tr0 ++ [SampleSite "y_train" (GPDist gp) (Array y_train) true]
              ++ prediction_sites condition gp_loc gp_variance jnp_sqrt
                   gp y_train t_pred).
Proof.
  intros Hkb gp. unfold run, AssessmentModel.model, bind. rewrite Hkb. fold gp.
  unfold sample, ret, deterministic, prediction_sites.
  destruct t_pred as [tp|]; simpl; rewrite <- ?app_assoc; reflexivity.
Qed.

Lemma run_model_raises (kb : M Kernel) latent t_train y_train t_test t_pred :
  run (model kb t_train y_train (Some t_test) None t_pred) latent = None.
Proof.
  unfold run, AssessmentModel.model, bind.
  destruct (kb latent []) as [[kernel tr0]|]; [|reflexivity].
  destruct (condition _ y_train t_test (yerr ^ 2)) as [lp gc]. reflexivity.
Qed.

Lemma latent_names_app (tr1 tr2 : list (site value distribution Q)) :
  latent_names (tr1 ++ tr2) = latent_names tr1 ++ latent_names tr2.
Proof. unfold latent_names. apply flat_map_app. Qed.

(** X10.  The prediction grid [t_pred] of the maximum-likelihood cell does not
    reach the target: for each kernel builder and every call that does
    not raise, the run with [t_pred] is the run without it followed by
    the deterministic sites "mean_pred" and "std_pred", so both have the
    same sampled sites, the same sites in the target density and the same
    target log-density. *)
Theorem prediction_grid_does_not_reach_target
    (kb : M Kernel) latent t_train y_train t_test y_test t_pred :
  kb ∈ kernel_builders ->
  raises t_test y_test = false ->
  exists tr tr' gp,
    run (model kb t_train y_train t_test y_test (Some t_pred)) latent = Some tr
    /\ run (model kb t_train y_train t_test y_test None) latent = Some tr'
    /\ tr = tr' ++ [DeterministicSite "mean_pred" (Array (gp_loc gp));
                    DeterministicSite "std_pred" (Array (jnp_sqrt (gp_variance gp)))]
    /\ latent_names tr = latent_names tr'
    /\ density_sites tr = density_sites tr'
    /\ log_density log_prob Qplus 0 tr = log_density log_prob Qplus 0 tr'.
Proof.
  intros Hkb Hr.
  destruct (kernel_builders_return kb latent Hkb) as (kernel & tr0 & Hrun).
  set (gp := {| gp_kernel := kernel; gp_X := t_train; gp_diag := yerr ^ 2 |}).
  assert (H : exists tr tr' gp',
             run (model kb t_train y_train t_test y_test (Some t_pred)) latent = Some tr
             /\ run (model kb t_train y_train t_test y_test None) latent = Some tr'
             /\ tr = tr' ++ [DeterministicSite "mean_pred" (Array (gp_loc gp'));
                             DeterministicSite "std_pred"
                               (Array (jnp_sqrt (gp_variance gp')))]).
  { destruct t_test as [t_test|].
    - destruct y_test as [y_test|]; [|discriminate Hr].
      rewrite !(run_model_held_out condition gp_log_probability gp_loc gp_variance
                 jnp_sqrt kb latent kernel tr0 _ _ _ _ _ Hrun).
      eexists _, _, _. split; [reflexivity|]. split; [reflexivity|].
      unfold prediction_sites. rewrite app_nil_r, <- !app_assoc. reflexivity.
    - rewrite !(run_model_training_only kb latent kernel tr0 _ _ _ _ Hrun).
      eexists _, _, _. split; [reflexivity|]. split; [reflexivity|].
      unfold prediction_sites. rewrite app_nil_r, <- !app_assoc. reflexivity. }
  destruct H as (tr & tr' & gp' & H1 & H2 & ->).
  eexists _, tr', gp'. split; [exact H1|]. split; [exact H2|].
  split; [reflexivity|].
  assert (Hd : density_sites (tr' ++ [DeterministicSite "mean_pred" (Array (gp_loc gp'));
                                      DeterministicSite "std_pred"
                                        (Array (jnp_sqrt (gp_variance gp')))])
               = density_sites tr')
    by (rewrite density_sites_app; apply app_nil_r).
  split; [rewrite latent_names_app; apply app_nil_r|].
  split; [exact Hd | apply log_density_sites, Hd].
Qed.

(** X11.  What the sampler samples, for every call of the model that
    returns: with the squared-exponential and the Matern-3/2 builder the
    sampled sites are sigma and rho, with the rational-quadratic builder
    sigma, rho and alpha, whatever the training data, the test data and
    the prediction grid; no data value is ever sampled. *)
Theorem sampled_hyperparameters latent t_train y_train t_test y_test t_pred :
  let sampled kb sites :=
    forall tr,
      run (model kb t_train y_train t_test y_test t_pred) latent = Some tr ->
      latent_names tr = sites in
  sampled build_exp_sq ["sigma"; "rho"]%string
  /\ sampled build_matern ["sigma"; "rho"]%string
  /\ sampled build_raquad ["sigma"; "rho"; "alpha"]%string.
Proof.
  intros sampled. subst sampled. cbv beta.
  destruct t_test as [t_test|]; [destruct y_test as [y_test|]|].
  - repeat split; intros tr;
      (erewrite run_model_held_out by reflexivity); intros [= <-];
      destruct t_pred; reflexivity.
  - repeat split; intros tr; rewrite run_model_raises; discriminate.
  - repeat split; intros tr;
      (erewrite run_model_training_only by reflexivity); intros [= <-];
      destruct t_pred; reflexivity.
Qed.

End Calls.

Lemma prediction_grid_does_not_reach_target_witness :
  build_raquad ∈ kernel_builders
  /\ raises None None = false
  /\ exists tr tr',
       run (model Toy.condition Toy.gp_log_probability Toy.gp_loc Toy.gp_variance
              Toy.jnp_sqrt build_raquad Toy.t Toy.y None None (Some [0; 6]))
           Toy.latent = Some tr
       /\ run (model Toy.condition Toy.gp_log_probability Toy.gp_loc Toy.gp_variance
                 Toy.jnp_sqrt build_raquad Toy.t Toy.y None None None)
              Toy.latent = Some tr'
       /\ density_sites tr = density_sites tr'.
Proof.
  assert (Hkb : build_raquad ∈ kernel_builders)
    by (unfold kernel_builders; rewrite !elem_of_cons; right; right; left; reflexivity).
  split; [exact Hkb|]. split; [reflexivity|].
  destruct (prediction_grid_does_not_reach_target
              Toy.condition Toy.gp_log_probability Toy.gp_loc Toy.gp_variance
              Toy.jnp_sqrt Toy.log_prob build_raquad Toy.latent Toy.t Toy.y
              None None [0; 6] Hkb eq_refl)
    as (tr & tr' & _ & H1 & H2 & _ & _ & Hd & _).
  exists tr, tr'. split; [exact H1|]. split; [exact H2 | exact Hd].
Defined.

Lemma sampled_hyperparameters_witness :
  run (model Toy.condition Toy.gp_log_probability Toy.gp_loc Toy.gp_variance
         Toy.jnp_sqrt build_raquad Toy.t Toy.y (Some [6]) (Some [60]) (Some [0; 7]))
      Toy.latent
  = Some [SampleSite "sigma" (HalfNormal 10) (Scalar 2) false;
          SampleSite "rho" (HalfNormal 5) (Scalar 2) false;
          SampleSite "alpha" (HalfNormal 10) (Scalar 2) false;
          FactorSite "log_prob_train" (- (10 + (20 + (30 + (40 + (50 + 0))))));
          DeterministicSite "log_prob_test" (Scalar (- (60 + 0)));
          DeterministicSite "mean_pred" (Array [0; 7]);
          DeterministicSite "std_pred"
            (Array [AssessmentModel.yerr ^ 2; AssessmentModel.yerr ^ 2])]
  /\ latent_names
       [SampleSite "sigma" (HalfNormal 10) (Scalar 2) false;
        SampleSite "rho" (HalfNormal 5) (Scalar 2) false;
        SampleSite "alpha" (HalfNormal 10) (Scalar 2) false;
        FactorSite "log_prob_train" (- (10 + (20 + (30 + (40 + (50 + 0))))));
        DeterministicSite "log_prob_test" (Scalar (- (60 + 0)));
        DeterministicSite "mean_pred" (Array [0; 7]);
        DeterministicSite "std_pred"
          (Array [AssessmentModel.yerr ^ 2; AssessmentModel.yerr ^ 2])]
     = ["sigma"; "rho"; "alpha"]%string.
Proof.
  assert (Hrun : run (model Toy.condition Toy.gp_log_probability Toy.gp_loc
                        Toy.gp_variance Toy.jnp_sqrt build_raquad Toy.t Toy.y
                        (Some [6]) (Some [60]) (Some [0; 7])) Toy.latent
                 = Some [SampleSite "sigma" (HalfNormal 10) (Scalar 2) false;
                         SampleSite "rho" (HalfNormal 5) (Scalar 2) false;
                         SampleSite "alpha" (HalfNormal 10) (Scalar 2) false;
                         FactorSite "log_prob_train"
                           (- (10 + (20 + (30 + (40 + (50 + 0))))));
                         DeterministicSite "log_prob_test" (Scalar (- (60 + 0)));
                         DeterministicSite "mean_pred" (Array [0; 7]);
                         DeterministicSite "std_pred"
                           (Array [AssessmentModel.yerr ^ 2; AssessmentModel.yerr ^ 2])])
    by reflexivity.
  split; [exact Hrun|].
  exact (proj2 (proj2 (sampled_hyperparameters
                         Toy.condition Toy.gp_log_probability Toy.gp_loc
                         Toy.gp_variance Toy.jnp_sqrt Toy.latent Toy.t Toy.y
                         (Some [6]) (Some [60]) (Some [0; 7]))) _ Hrun).
Defined.

End AssessmentFits.

(** ** Transit: the ground truth and the initial values of the fits *)

Module TransitTruth.
Import NumPyro Transit.

Local Open Scope R_scope.

Definition y_err : R := 0.001.

Definition true_params : Params := {|
  log_f0 := 0;
  u := (0.3, 0.2);
  log_duration := ln 0.12;
  t0 := 0;
  b := 0.1;
  log_r := ln 0.1;
  log_amp := Some (ln 0.002);
  log_ell := Some (ln 0.02)
|}.

(** [params[key]] for [key in params], as the value of a site. *)
Definition getitem (params : Params) (key : string) : option value :=
  if String.eqb key "log_f0" then Some (Scalar (log_f0 params))
  else if String.eqb key "u" then Some (Pair (u params))
  else if String.eqb key "log_duration" then Some (Scalar (log_duration params))
  else if String.eqb key "t0" then Some (Scalar (t0 params))
  else if String.eqb key "b" then Some (Scalar (b params))
  else if String.eqb key "log_r" then Some (Scalar (log_r params))
  else if String.eqb key "log_amp" then option_map Scalar (log_amp params)
  else if String.eqb key "log_ell" then option_map Scalar (log_ell params)
  else None.

(** [infer.init_to_value(values=values)]: a latent site whose name is a
    key of [values] starts at that value, any other latent site at the
    draw of [init_to_uniform]. *)
Definition init_to_value (values : string -> option value)
    (init_to_uniform : string -> value) (name : string) : value :=
  default (init_to_uniform name) (values name).

Section Fits.

Variable lc_light_curve : QuadLightCurve -> TransitOrbit -> list R -> list R.
Variable gp_condition_loc : GaussianProcess -> list R -> list R -> list R.
Variable t_grid : list R.

Abbreviation build_gp := (build_gp lc_light_curve).
Abbreviation model := (model lc_light_curve gp_condition_loc t_grid).
Abbreviation light_curve := (light_curve lc_light_curve).

(** X13.  Both fits are started by [init_to_value(values=true_params)].  The
    dictionary has a value for every sampled site except "log_jitter",
    which starts at the draw of [init_to_uniform]; its keys
    "log_duration" and "b" name no site.  At the initial point the
    Gaussian process of the fit with [use_gp=True] has the kernel, the
    times and the mean function of the process the data were drawn from,
    and the fit with [use_gp=False] has the same mean; the variance of
    an observation is the simulation's [y_err**2] plus the jitter term,
    so it is strictly larger than the one the data were drawn with. *)
Theorem fits_start_at_truth (t y : list R) (init_to_uniform : string -> value) :
  let latent := init_to_value (getitem true_params) init_to_uniform in
  let jitter := exp (2 * as_scalar (init_to_uniform "log_jitter"%string)) in
  exists gp_sim tr_gp gp tr_wn fn_wn,
    build_gp true_params t (y_err ^ 2) = Some gp_sim
    /\ run (model t y_err (Some y) true) latent = Some tr_gp
    /\ site_fn "y" tr_gp = Some (GPDist gp)
    /\ gp_kernel gp = gp_kernel gp_sim
    /\ gp_t gp = gp_t gp_sim
    /\ gp_mean gp = gp_mean gp_sim
    /\ gp_diag gp = gp_diag gp_sim + jitter
    /\ gp_diag gp_sim < gp_diag gp
    /\ run (model t y_err (Some y) false) latent = Some tr_wn
    /\ site_fn "y" tr_wn = Some fn_wn
    /\ mean_at fn_wn t = gp_mean gp_sim t
    /\ point_variance fn_wn = gp_diag gp_sim + jitter
    /\ getitem true_params "log_jitter" = None
    /\ Forall (fun name => is_Some (getitem true_params name))
         ["log_f0"; "u"; "t0"; "log_r"; "log_amp"; "log_ell"]%string
    /\ Forall (fun name => (name ∉ latent_names tr_gp)
                        /\ is_Some (getitem true_params name))
         ["log_duration"; "b"]%string.
Proof.
  intros latent jitter.
  eexists _, _, _, _, _.
  split; [reflexivity|]. split; [reflexivity|]. split; [reflexivity|].
  split; [reflexivity|]. split; [reflexivity|]. split; [reflexivity|].
  split; [reflexivity|].
  split; [simpl; pose proof (exp_pos (2 * as_scalar (latent "log_jitter"%string))); lra|].
  split; [reflexivity|]. split; [reflexivity|]. split; [reflexivity|].
  split; [simpl point_variance; apply pow2_sqrt, variance_nonneg|].
  split; [reflexivity|]. split.
  - repeat apply Forall_cons_2; try apply Forall_nil_2; eexists; reflexivity.
  - repeat apply Forall_cons_2; try apply Forall_nil_2;
      (split; [|eexists; reflexivity]);
      simpl; rewrite !not_elem_of_cons; repeat split;
        try discriminate; apply not_elem_of_nil.
Qed.

End Fits.

End TransitTruth.

(** ** The drivers: names that keep their values *)

Module DriverNames.
Import Py Notebook Drivers.

(** The names bound by the simulation cells, besides the observation
    sets.  The quasar notebook's [inds], the sort order of the
    simulation, is not among them: the figure cell binds [inds] again. *)
Definition assessment_simulation : list string :=
  ["key_t"; "key_y"; "key_split"; "N"; "kernel"; "gp"; "mask_train"].

Definition quasar_simulation : list string :=
  ["data"; "N"; "Multiband"; "time_delay_transform"; "mean_func"; "build_gp";
   "loss"; "true_params"; "gp"].

Definition transit_simulation : list string :=
  ["light_curve"; "build_gp"; "t_grid"; "true_params"; "gp"].

(** The results of the cells, each with the position of the cell that
    binds it last. *)
Definition assessment_results : list (nat * string) :=
  [(2, "t_pred"); (2, "mod"); (2, "soln"); (2, "samp");
   (3, "sampler_exp_sq"); (3, "inf_exp_sq");
   (4, "sampler_matern"); (4, "inf_matern");
   (5, "sampler_raquad"); (5, "inf_raquad");
   (7, "ns_exp_sq"); (8, "ns_matern"); (9, "ns_raquad")]%string.

Definition quasar_results : list (nat * string) :=
  [(1, "opt"); (1, "init"); (1, "minimum"); (1, "lags"); (1, "vals"); (1, "soln");
   (2, "t_lagged"); (2, "t_grid");
   (3, "model"); (3, "init_params"); (3, "sampler");
   (4, "inf_data")]%string.

Definition transit_results : list (nat * string) :=
  [(1, "model"); (2, "sampler_wn"); (2, "inf_data_wn");
   (3, "sampler"); (3, "inf_data")]%string.

(** [x] is none of the names [ws]. *)
Definition absent (x : string) (ws : list string) : bool :=
  forallb (fun y => negb (String.eqb x y)) ws.

(** The names each cell binds, cell by cell. *)
Definition assessment_writes : list (list string) :=
  [ [];
    ["model"; "build_exp_sq"; "build_matern"; "build_raquad";
     "sampler_exp_sq"; "sampler_matern"; "sampler_raquad"];
    ["t_pred"; "mod"; "soln"; "samp"];
    ["sampler_exp_sq"; "inf_exp_sq"];
    ["sampler_matern"; "inf_matern"];
    ["sampler_raquad"; "inf_raquad"];
    [];
    ["NestedSampler"; "ns_exp_sq"];
    ["ns_matern"];
    ["ns_raquad"];
    ["log_Z"; "log_Z_uncert"; "names"];
    ["fig"; "axes"; "ax"; "log_Z"; "log_Z_uncert"; "names"] ].

Definition quasar_writes : list (list string) :=
  [ [];
    ["opt"; "init"; "minimum"; "lags"; "vals"; "lag"; "soln"];
    ["t_lagged"; "t_grid"];
    ["model"; "init_params"; "sampler"];
    ["inf_data"];
    ["fig"];
    ["samples"; "lag"; "pred_a"; "pred_b"; "inds"; "offset"; "a"; "b"] ].

Definition transit_writes : list (list string) :=
  [ [];
    ["model"];
    ["sampler_wn"; "inf_data_wn"];
    ["sampler"; "inf_data"];
    ["p1"; "p2"; "ranges"; "fig"];
    ["samples"; "pred_gp"; "pred"; "samples_wn"; "pred_wn"; "inds"] ].

Section Cells.

Variables Obj Exn : Type.
Variable eval : string -> World Obj Exn -> Exn + Obj.
Variable unpack : nat -> Obj -> Obj.
Variable items : Obj -> list Obj.
Variable truthy : Obj -> bool.
Variable time_swallows : bool.

Abbreviation assessment_cells := (assessment_cells Obj Exn eval unpack).
Abbreviation quasar_cells :=
  (quasar_cells Obj Exn eval unpack items truthy time_swallows).
Abbreviation transit_cells := (transit_cells Obj Exn eval unpack time_swallows).

(** [x] keeps its value through the cells [cells]. *)
Definition preserved (cells : list (list (stmt Obj Exn))) (x : string) : Prop :=
  forall w, globals Obj Exn (run_cells Obj Exn cells w) !! x = globals Obj Exn w !! x.

(** [x] keeps its value through the cells after cell [k]. *)
Definition preserved_after (cells : list (list (stmt Obj Exn))) (kx : nat * string)
  : Prop := preserved (drop (S (fst kx)) cells) (snd kx).

(** A cell leaves alone every name that is not in [ws]. *)
Definition writes_within (c : list (stmt Obj Exn)) (ws : list string) : Prop :=
  forall x, absent x ws = true -> Forall (frames Obj Exn x) c.

Lemma preserved_drop cells writes k x :
  Forall2 writes_within cells writes ->
  forallb (absent x) (drop k writes) = true ->
  preserved (drop k cells) x.
Proof.
  intros H Hx w. apply frames_run_cells.
  apply (Forall2_drop _ _ _ k) in H. revert Hx.
  generalize dependent (drop k writes). generalize (drop k cells).
  intros cs wss H. induction H as [|c ws cs wss Hc _ IH]; intros Hx;
    [apply Forall_nil_2|].
  simpl in Hx. apply andb_prop in Hx as [Hx1 Hx2].
  apply Forall_cons_2; [apply Hc, Hx1 | apply IH, Hx2].
Qed.

Ltac absent_side H :=
  lazymatch goal with
  | |- _ <> _ => intros ->; vm_compute in H; discriminate H
  | |- _ ∉ [] => apply not_elem_of_nil
  | |- _ ∉ _ :: _ =>
      apply not_elem_of_cons; split; [absent_side H | absent_side H]
  end.

Ltac frames_of H :=
  repeat lazymatch goal with
    | |- Forall _ [] => apply Forall_nil_2
    | |- Forall _ (_ :: _) => apply Forall_cons_2
    | |- frames _ _ _ (Notebook.expr _ _ _ _) => apply frames_expr
    | |- frames _ _ _ (Notebook.assign _ _ _ _ _) =>
        apply frames_assign; absent_side H
    | |- frames _ _ _ (Notebook.def_ _ _ _ _) => apply frames_def; absent_side H
    | |- frames _ _ _ (Notebook.import_ _ _ _ _) =>
        apply frames_import; absent_side H
    | |- frames _ _ _ (Notebook.assign_unpack _ _ _ _ _ _) =>
        apply frames_assign_unpack; absent_side H
    | |- frames _ _ _ (Notebook.in_place _ _ _ _ _ _) =>
        apply frames_in_place; absent_side H
    | |- frames _ _ _ (Notebook.time_magic _ _ _ _) => apply frames_time_magic
    | |- frames _ _ _ (Notebook.for_ _ _ _ _ _ _ _) =>
        apply frames_for; [absent_side H|]
    | |- frames _ _ _ (Notebook.if_ _ _ _ _ _ _) => apply frames_if
    | |- frames _ _ _ (Notebook.with_ _ _ _ _ _) => apply frames_with
    end.

Ltac unfold_cells :=
  unfold Drivers.assessment_cells, Drivers.quasar_cells, Drivers.transit_cells,
    assessment_plot_data, assessment_models,
    assessment_max_like, assessment_mcmc_exp_sq, assessment_mcmc_matern,
    assessment_mcmc_raquad, mcmc_cell, assessment_histograms,
    assessment_ns_exp_sq, assessment_ns_matern, assessment_ns_raquad,
    nested_cell, assessment_evidence, assessment_figure, evidence_lists, on_ax,
    quasar_plot_data, quasar_grid_search, quasar_prediction_grid, quasar_mcmc,
    quasar_summary, quasar_corner, quasar_figure,
    transit_plot_data, transit_model, transit_white_noise,
    transit_gp, transit_fit, transit_corner, transit_figure.

Ltac solve_writes :=
  unfold_cells; cbn [app];
  repeat first [apply Forall2_nil_2 | apply Forall2_cons_2];
  intros x Hx; frames_of Hx.

Lemma assessment_writes_within : Forall2 writes_within assessment_cells assessment_writes.
Proof. unfold assessment_writes. solve_writes. Qed.

Lemma quasar_writes_within : Forall2 writes_within quasar_cells quasar_writes.
Proof. unfold quasar_writes. solve_writes. Qed.

Lemma transit_writes_within : Forall2 writes_within transit_cells transit_writes.
Proof. unfold transit_writes. solve_writes. Qed.

Ltac solve_kept Hw :=
  repeat first [apply Forall_nil_2 | apply Forall_cons_2];
  lazymatch goal with
  | |- preserved_after _ (?k, _) =>
      apply (preserved_drop _ _ (S k) _ Hw); vm_compute; reflexivity
  | |- preserved _ _ => apply (preserved_drop _ _ 0 _ Hw); vm_compute; reflexivity
  end.

(** X14.  In each notebook, whatever the libraries return or raise, the cells
    after the simulation leave every other name of the simulation cell
    bound to the value the simulation gave it: the random keys, the
    simulation's kernel and process, the split [mask_train], the
    functions and the true parameters.  So every [t[mask_train]] of the
    assessment notebook is the same split, and the [true_params] given
    to [init_to_value] and drawn as the truth in the transit figures are
    the simulation's. *)
Theorem simulation_names_keep_values :
  Forall (preserved assessment_cells) assessment_simulation
  /\ Forall (preserved quasar_cells) quasar_simulation
  /\ Forall (preserved transit_cells) transit_simulation.
Proof.
  unfold assessment_simulation, quasar_simulation, transit_simulation.
  split; [|split].
  - solve_kept assessment_writes_within.
  - solve_kept quasar_writes_within.
  - solve_kept transit_writes_within.
Qed.

(** X15.  In each notebook, whatever the libraries return or raise, no cell
    after the one that produces a result binds its name again: the
    optimizer's solution and the predictive samples, each sampler and
    its inference data, the nested-sampling runs, the selected grid
    point [minimum] and [init], the prediction grid [t_grid].  So the
    figure cells draw the results of the runs above them. *)
Theorem results_bound_once :
  Forall (preserved_after assessment_cells) assessment_results
  /\ Forall (preserved_after quasar_cells) quasar_results
  /\ Forall (preserved_after transit_cells) transit_results.
Proof.
  unfold assessment_results, quasar_results, transit_results.
  split; [|split].
  - solve_kept assessment_writes_within.
  - solve_kept quasar_writes_within.
  - solve_kept transit_writes_within.
Qed.

End Cells.

(** The figure cell of the quasar notebook binds [inds] again. *)
Example quasar_inds_rebound :
  globals string Empty_set
    (run_cells string Empty_set
       (Drivers.quasar_cells string Empty_set (fun src _ => inr src)
          (fun _ v => v) (fun _ => []) (fun _ => false) true)
       {| globals := {[ "inds" := "jnp.argsort(t)" ]}; trace := [] |})
  !! "inds"
  = Some "jax.random.randint(jax.random.PRNGKey(134), (12,), 0, len(pred_a))".
Proof. vm_compute. reflexivity. Qed.

End DriverNames.

(** ** Quasar time delay: the covariance of the [Multiband] kernel *)

Module MultibandKernel.
Import Jnp Quasar.

Local Open Scope Q_scope.

Section Covariance.

Variable BaseKernel : Type.
Variable Matrix : Type.
Variable base_observation_model : BaseKernel -> Q -> list Q.
Variable base_stationary_covariance : BaseKernel -> Matrix.
Variable base_transition : BaseKernel -> Q -> Q -> Matrix.
Variable vecmat : list Q -> Matrix -> list Q.
Variable dot : list Q -> list Q -> Q.

(** The products are linear, up to the equality of rationals. *)
Hypothesis vecmat_proper :
  forall u v M, Forall2 Qeq u v -> Forall2 Qeq (vecmat u M) (vecmat v M).
Hypothesis vecmat_scale :
  forall c v M, Forall2 Qeq (vecmat (map (Qmult c) v) M) (map (Qmult c) (vecmat v M)).
Hypothesis dot_proper_l :
  forall u u' v, Forall2 Qeq u u' -> dot u v == dot u' v.
Hypothesis dot_scale_l :
  forall c u v, dot (map (Qmult c) u) v == c * dot u v.
Hypothesis dot_scale_r :
  forall c u v, dot u (map (Qmult c) v) == c * dot u v.

Abbreviation evaluate :=
  (evaluate BaseKernel Matrix base_observation_model base_stationary_covariance
            base_transition vecmat dot).

(** [Quasisep.evaluate] of the wrapped kernel, on times. *)
Definition base_evaluate (k : BaseKernel) (t1 t2 : Q) : Q :=
  let Pinf := base_stationary_covariance k in
  let h1 := base_observation_model k t1 in
  let h2 := base_observation_model k t2 in
  if Qltb t1 t2
  then dot (vecmat (vecmat h2 Pinf) (base_transition k t1 t2)) h1
  else dot (vecmat (vecmat h1 Pinf) (base_transition k t2 t1)) h2.

Lemma scaled_product (a1 a2 : Q) (h1 h2 : list Q) (P A : Matrix) :
  dot (vecmat (vecmat (map (Qmult a2) h2) P) A) (map (Qmult a1) h1)
  == a1 * a2 * dot (vecmat (vecmat h2 P) A) h1.
Proof.
  rewrite dot_scale_r.
  rewrite (dot_proper_l _ (map (Qmult a2) (vecmat (vecmat h2 P) A))).
  - rewrite dot_scale_l. ring.
  - eapply Forall2_trans; [exact Qeq_trans | | apply vecmat_scale].
    apply vecmat_proper, vecmat_scale.
Qed.

(** X16.  The covariance the [Multiband] kernel gives two observations is the
    covariance of the wrapped kernel between their times, multiplied by
    the amplitudes of their two bands: the band enters the covariance
    only through its amplitude, and only the times enter the wrapped
    kernel. *)
Theorem multiband_covariance_factorises (self : Multiband BaseKernel) (X1 X2 : Coord) :
  evaluate self X1 X2
  == index 0 (amplitudes _ self) (snd X1) * index 0 (amplitudes _ self) (snd X2)
     * base_evaluate (kernel _ self) (fst X1) (fst X2).
Proof.
  unfold Quasar.evaluate, base_evaluate, observation_model, stationary_covariance,
    transition, coord_to_sortable.
  destruct (Qltb (fst X1) (fst X2)); rewrite scaled_product; ring.
Qed.

End Covariance.

Lemma toy_vecmat_proper u v M :
  Forall2 Qeq u v -> Forall2 Qeq (Toy.vecmat u M) (Toy.vecmat v M).
Proof.
  unfold Toy.vecmat. induction 1 as [|x y u v Hxy _ IH]; simpl; constructor;
    [rewrite Hxy; reflexivity | exact IH].
Qed.

Lemma toy_vecmat_scale c v M :
  Forall2 Qeq (Toy.vecmat (map (Qmult c) v) M) (map (Qmult c) (Toy.vecmat v M)).
Proof.
  unfold Toy.vecmat. induction v as [|x v IH]; simpl; constructor; [ring | exact IH].
Qed.

Lemma toy_dot_proper_l u u' v : Forall2 Qeq u u' -> Toy.dot u v == Toy.dot u' v.
Proof.
  unfold Toy.dot. intros H. revert v.
  induction H as [|x y u u' Hxy _ IH]; intros [|z v]; simpl; try reflexivity.
  rewrite Hxy, IH. reflexivity.
Qed.

Lemma toy_dot_scale_l c u v : Toy.dot (map (Qmult c) u) v == c * Toy.dot u v.
Proof.
  unfold Toy.dot. revert v. induction u as [|x u IH]; intros [|z v]; simpl;
    try ring.
  rewrite IH. ring.
Qed.

Lemma toy_dot_scale_r c u v : Toy.dot u (map (Qmult c) v) == c * Toy.dot u v.
Proof.
  unfold Toy.dot. revert v. induction u as [|x u IH]; intros [|z v]; simpl;
    try ring.
  rewrite IH. ring.
Qed.

Example toy_cross_band_covariance :
  Quasar.evaluate Q Q Toy.observation_model Toy.stationary_covariance
    Toy.transition Toy.vecmat Toy.dot Toy.self (0, 0%Z) (100, 1%Z)
  == (8 # 100) * (12 # 100) * (1 # 2).
Proof. vm_compute. reflexivity. Qed.

Lemma multiband_covariance_factorises_witness :
  (forall c u v, Toy.dot u (map (Qmult c) v) == c * Toy.dot u v)
  /\ Quasar.evaluate Q Q Toy.observation_model Toy.stationary_covariance
       Toy.transition Toy.vecmat Toy.dot Toy.self (0, 0%Z) (100, 1%Z)
     == (8 # 100) * (12 # 100)
        * base_evaluate Q Q Toy.observation_model Toy.stationary_covariance
            Toy.transition Toy.vecmat Toy.dot 100 0 100.
Proof.
  split; [exact toy_dot_scale_r|].
  exact (multiband_covariance_factorises Q Q Toy.observation_model
           Toy.stationary_covariance Toy.transition Toy.vecmat Toy.dot
           toy_vecmat_proper toy_vecmat_scale toy_dot_proper_l toy_dot_scale_l
           toy_dot_scale_r Toy.self (0, 0%Z) (100, 1%Z)).
Defined.

End MultibandKernel.
